(** * Municipal Flag NFT game backend: admin router, startup and auction core

    The admin router ([routers/admin.py]) and the application entry point
    ([main.py]) are embedded from their Python sources.  The auction,
    ownership and pair-completion engine that the specification describes
    has no source file here; it is modelled from the specification and every
    such definition says so in its doc comment. *)

From Stdlib Require Import ZArith List Bool Ascii String Lia.
From stdpp Require Import base decidable option list gmap strings.
Import ListNotations.

Local Open Scope string_scope.
Local Open Scope Z_scope.

(** ** Data model: the rows of [models.py] as the router uses them *)

(** [AuctionStatus]: the router names [ACTIVE]; the other members are those
    of the specification's lifecycle. *)
Inductive AuctionStatus := PENDING | ACTIVE | CLOSING | SETTLED | CANCELLED.

#[global] Instance AuctionStatus_eq_dec : EqDecision AuctionStatus.
Proof. solve_decision. Defined.

Record Country := { country_id : Z }.
Record Region := { region_id : Z; region_country : Z }.
Record Municipality := { municipality_id : Z; municipality_region : Z }.

Record Flag := {
  flag_id : Z;
  flag_municipality : Z;
  is_pair_complete : bool;
  image_ipfs_hash : option string;
  metadata_ipfs_hash : option string
}.

Record User := { user_id : Z }.
Record FlagInterest := { interest_id : Z; interest_user : Z; interest_flag : Z }.
Record FlagOwnership := { ownership_id : Z; ownership_user : Z; ownership_flag : Z }.

Record Auction := {
  auction_id : Z;
  auction_flag : Z;
  auction_status : AuctionStatus;
  open_at : Z;
  close_at : Z;
  reserve_price : Z;
  auction_winner : option Z
}.

Record Bid := {
  bid_id : Z;
  bid_auction : Z;
  bid_bidder : Z;
  bid_amount : Z;
  bid_timestamp : Z
}.

Record UserConnection := {
  connection_id : Z;
  connection_follower : Z;
  connection_following : Z
}.

(** The committed content of the store: one list of rows per mapped class. *)
Record Database := {
  countries : list Country;
  regions : list Region;
  municipalities : list Municipality;
  flags : list Flag;
  users : list User;
  flag_interests : list FlagInterest;
  flag_ownerships : list FlagOwnership;
  auctions : list Auction;
  bids : list Bid;
  user_connections : list UserConnection
}.

Definition empty_database : Database :=
  {| countries := []; regions := []; municipalities := []; flags := [];
     users := []; flag_interests := []; flag_ownerships := [];
     auctions := []; bids := []; user_connections := [] |}.

(** ** HTTP plumbing *)

(** [raise HTTPException(status_code, detail)] against a normal return. *)
Inductive Result (A : Type) :=
| Return (a : A)
| HTTPException (status_code : Z) (detail : string).
Arguments Return {A} a.
Arguments HTTPException {A} status_code detail.

Definition HTTP_400_BAD_REQUEST : Z := 400.
Definition HTTP_403_FORBIDDEN : Z := 403.
Definition HTTP_502_BAD_GATEWAY : Z := 502.

Definition status_of {A} (r : Result A) : Z :=
  match r with
  | Return _ => 200
  | HTTPException c _ => c
  end.

(** Calls that leave the process: the seeding routine of [seed_data.py] and
    the request to the pinning service. *)
Inductive Call :=
| CallSeedDatabase (on : Database)
| CallPinataPinList.

(** What one request leaves behind: the response, the store and the calls
    made on the way. *)
Record Outcome (A : Type) := {
  response : Result A;
  store : Database;
  calls : list Call
}.
Arguments response {A} o.
Arguments store {A} o.
Arguments calls {A} o.

(** [settings] of [config.py], with the fields the two sources read. *)
Record Settings := {
  admin_api_key : string;
  pinata_jwt : option string;
  project_name : string;
  environment : string
}.

(** Python truthiness of an optional string: [None] and [""] are falsy. *)
Definition truthy (o : option string) : bool :=
  match o with
  | Some s => negb (bool_decide (s = ""))
  | None => false
  end.

(** [db.query(func.count(C.id)).scalar()] and [db.query(C).count()] over a
    table whose primary key is never null. *)
Definition count {A} (rows : list A) : Z := Z.of_nat (length rows).

(** [... .filter(p).scalar()] *)
Definition count_where {A} (p : A → bool) (rows : list A) : Z :=
  count (List.filter p rows).

Definition isnot_None {A} (o : option A) : bool :=
  match o with Some _ => true | None => false end.

(** ** [routers/admin.py] *)

Record AdminStatsResponse := {
  total_countries : Z;
  total_regions : Z;
  total_municipalities : Z;
  total_flags : Z;
  total_users : Z;
  total_interests : Z;
  total_ownerships : Z;
  total_auctions : Z;
  active_auctions : Z;
  completed_pairs : Z
}.

Record IpfsStatus := {
  ipfs_total_flags : Z;
  flags_with_image_hash : Z;
  flags_with_metadata_hash : Z;
  flags_pending_upload : Z
}.

(** [MessageResponse] of the synchronisation: the three numbers its message
    is formatted from. *)
Record SyncReport := {
  updated_count : Z;
  found_images : Z;
  found_metadata : Z
}.

Inductive Body :=
| StatsBody (s : AdminStatsResponse)
| MessageBody (message : string)
| IpfsStatusBody (s : IpfsStatus)
| SyncBody (r : SyncReport).

(** [verify_admin]: the header is [None] when the request has none. *)
Definition verify_admin (settings : Settings) (x_admin_key : option string)
  : Result bool :=
  if bool_decide (x_admin_key ≠ Some (admin_api_key settings))
  then HTTPException HTTP_403_FORBIDDEN "Invalid or missing admin API key"
  else Return true.

(** [get_admin_stats], the function under the route. *)
Definition get_admin_stats (db : Database) : Outcome Body :=
  {| response := Return (StatsBody
       {| total_countries := count (countries db);
          total_regions := count (regions db);
          total_municipalities := count (municipalities db);
          total_flags := count (flags db);
          total_users := count (users db);
          total_interests := count (flag_interests db);
          total_ownerships := count (flag_ownerships db);
          total_auctions := count (auctions db);
          active_auctions :=
            count_where (λ a, bool_decide (auction_status a = ACTIVE))
                        (auctions db);
          completed_pairs :=
            count_where (λ f, bool_decide (is_pair_complete f = true))
                        (flags db) |});
     store := db;
     calls := [] |}.

(** [ipfs_status] *)
Definition ipfs_status (db : Database) : Outcome Body :=
  let total_flags := count (flags db) in
  let flags_with_image :=
    count_where (λ f, isnot_None (image_ipfs_hash f)) (flags db) in
  let flags_with_metadata :=
    count_where (λ f, isnot_None (metadata_ipfs_hash f)) (flags db) in
  {| response := Return (IpfsStatusBody
       {| ipfs_total_flags := total_flags;
          flags_with_image_hash := flags_with_image;
          flags_with_metadata_hash := flags_with_metadata;
          flags_pending_upload := total_flags - flags_with_image |});
     store := db;
     calls := [] |}.

(** [seed_demo_data].  [seed_database] is the routine of [seed_data.py],
    which is not among the sources: it is an argument. *)
Definition seed_demo_data (seed_database : Database → Database)
    (db : Database) : Outcome Body :=
  let existing_countries := count (countries db) in
  if 0 <? existing_countries
  then {| response := HTTPException HTTP_400_BAD_REQUEST
                        "Database already has data. Cannot seed.";
          store := db;
          calls := [] |}
  else {| response := Return (MessageBody "Demo data seeded successfully");
          store := seed_database db;
          calls := [CallSeedDatabase db] |}.

(** The mapped classes, as [db.query(C)] names them. *)
Inductive Model :=
| M_Country | M_Region | M_Municipality | M_Flag | M_User
| M_FlagInterest | M_FlagOwnership | M_Auction | M_Bid | M_UserConnection.

#[global] Instance Model_eq_dec : EqDecision Model.
Proof. solve_decision. Defined.

(** [db.query(C).delete()]: every row of the class goes. *)
Definition query_delete (m : Model) (db : Database) : Database :=
  match m with
  | M_Country =>
      {| countries := []; regions := regions db;
         municipalities := municipalities db; flags := flags db;
         users := users db; flag_interests := flag_interests db;
         flag_ownerships := flag_ownerships db; auctions := auctions db;
         bids := bids db; user_connections := user_connections db |}
  | M_Region =>
      {| countries := countries db; regions := [];
         municipalities := municipalities db; flags := flags db;
         users := users db; flag_interests := flag_interests db;
         flag_ownerships := flag_ownerships db; auctions := auctions db;
         bids := bids db; user_connections := user_connections db |}
  | M_Municipality =>
      {| countries := countries db; regions := regions db;
         municipalities := []; flags := flags db;
         users := users db; flag_interests := flag_interests db;
         flag_ownerships := flag_ownerships db; auctions := auctions db;
         bids := bids db; user_connections := user_connections db |}
  | M_Flag =>
      {| countries := countries db; regions := regions db;
         municipalities := municipalities db; flags := [];
         users := users db; flag_interests := flag_interests db;
         flag_ownerships := flag_ownerships db; auctions := auctions db;
         bids := bids db; user_connections := user_connections db |}
  | M_User =>
      {| countries := countries db; regions := regions db;
         municipalities := municipalities db; flags := flags db;
         users := []; flag_interests := flag_interests db;
         flag_ownerships := flag_ownerships db; auctions := auctions db;
         bids := bids db; user_connections := user_connections db |}
  | M_FlagInterest =>
      {| countries := countries db; regions := regions db;
         municipalities := municipalities db; flags := flags db;
         users := users db; flag_interests := [];
         flag_ownerships := flag_ownerships db; auctions := auctions db;
         bids := bids db; user_connections := user_connections db |}
  | M_FlagOwnership =>
      {| countries := countries db; regions := regions db;
         municipalities := municipalities db; flags := flags db;
         users := users db; flag_interests := flag_interests db;
         flag_ownerships := []; auctions := auctions db;
         bids := bids db; user_connections := user_connections db |}
  | M_Auction =>
      {| countries := countries db; regions := regions db;
         municipalities := municipalities db; flags := flags db;
         users := users db; flag_interests := flag_interests db;
         flag_ownerships := flag_ownerships db; auctions := [];
         bids := bids db; user_connections := user_connections db |}
  | M_Bid =>
      {| countries := countries db; regions := regions db;
         municipalities := municipalities db; flags := flags db;
         users := users db; flag_interests := flag_interests db;
         flag_ownerships := flag_ownerships db; auctions := auctions db;
         bids := []; user_connections := user_connections db |}
  | M_UserConnection =>
      {| countries := countries db; regions := regions db;
         municipalities := municipalities db; flags := flags db;
         users := users db; flag_interests := flag_interests db;
         flag_ownerships := flag_ownerships db; auctions := auctions db;
         bids := bids db; user_connections := [] |}
  end.

(** The ten [delete()] statements of [reset_database], in source order. *)
Definition reset_statements : list Model :=
  [ M_FlagInterest; M_FlagOwnership; M_Bid; M_Auction; M_UserConnection;
    M_User; M_Flag; M_Municipality; M_Region; M_Country ].

Definition run_deletes (ms : list Model) (db : Database) : Database :=
  fold_left (λ d m, query_delete m d) ms db.

(** The session after the first [n] statements of [reset_database]. *)
Definition reset_after (n : nat) (db : Database) : Database :=
  run_deletes (take n reset_statements) db.

(** [reset_database]: the ten statements, then [db.commit()]. *)
Definition reset_database (db : Database) : Outcome Body :=
  {| response := Return (MessageBody "Database reset successfully");
     store := run_deletes reset_statements db;
     calls := [] |}.

(** Number of rows of a class. *)
Definition rows_of (m : Model) (db : Database) : Z :=
  match m with
  | M_Country => count (countries db)
  | M_Region => count (regions db)
  | M_Municipality => count (municipalities db)
  | M_Flag => count (flags db)
  | M_User => count (users db)
  | M_FlagInterest => count (flag_interests db)
  | M_FlagOwnership => count (flag_ownerships db)
  | M_Auction => count (auctions db)
  | M_Bid => count (bids db)
  | M_UserConnection => count (user_connections db)
  end.

(** Modelled from the spec: the foreign keys of [models.py], which is not
    among the sources.  A bid names its auction and its bidder, an auction
    its flag, an ownership and an interest a user and a flag, a flag its
    municipality, and the hierarchy runs municipality, region, country; a
    user connection joins two users. *)
Definition references (m : Model) : list Model :=
  match m with
  | M_Country => []
  | M_Region => [M_Country]
  | M_Municipality => [M_Region]
  | M_Flag => [M_Municipality]
  | M_User => []
  | M_FlagInterest => [M_User; M_Flag]
  | M_FlagOwnership => [M_User; M_Flag]
  | M_Auction => [M_Flag]
  | M_Bid => [M_Auction; M_User]
  | M_UserConnection => [M_User]
  end.

(** Position of a class among the statements of the reset. *)
Fixpoint position (m : Model) (ms : list Model) : option nat :=
  match ms with
  | [] => None
  | m' :: rest =>
      if bool_decide (m = m') then Some 0%nat
      else S <$> position m rest
  end.

(** Modelled from the spec: referential integrity under [references]: every
    foreign key of every row names the primary key of a row that exists. *)
Definition has_key {A} (key : A → Z) (rows : list A) (k : Z) : Prop :=
  k ∈ key <$> rows.

Definition foreign_keys_ok (db : Database) : Prop :=
  Forall (λ r, has_key country_id (countries db) (region_country r))
         (regions db)
  ∧ Forall (λ m, has_key region_id (regions db) (municipality_region m))
           (municipalities db)
  ∧ Forall (λ f, has_key municipality_id (municipalities db)
                         (flag_municipality f))
           (flags db)
  ∧ Forall (λ i, has_key user_id (users db) (interest_user i)
                 ∧ has_key flag_id (flags db) (interest_flag i))
           (flag_interests db)
  ∧ Forall (λ o, has_key user_id (users db) (ownership_user o)
                 ∧ has_key flag_id (flags db) (ownership_flag o))
           (flag_ownerships db)
  ∧ Forall (λ a, has_key flag_id (flags db) (auction_flag a)) (auctions db)
  ∧ Forall (λ b, has_key auction_id (auctions db) (bid_auction b)
                 ∧ has_key user_id (users db) (bid_bidder b))
           (bids db)
  ∧ Forall (λ c, has_key user_id (users db) (connection_follower c)
                 ∧ has_key user_id (users db) (connection_following c))
           (user_connections db).

(** *** [sync_ipfs_from_pinata] *)

(** Names are Python [str] values; they are modelled as strings of code
    points below 256, where [\d] is the ten characters [0]..[9]. *)
Definition ord (c : ascii) : Z := Z.of_nat (nat_of_ascii c).

(** [[A-Z]] *)
Definition is_upper (c : ascii) : bool := (65 <=? ord c) && (ord c <=? 90).
(** [[a-z]] *)
Definition is_lower (c : ascii) : bool := (97 <=? ord c) && (ord c <=? 122).
(** [\d] *)
Definition is_digit (c : ascii) : bool := (48 <=? ord c) && (ord c <=? 57).

(** The line feed, U+000A. *)
Definition LF : string := String "010"%char EmptyString.

(** The longest prefix in a class and what follows it: a greedy [c*]. *)
Fixpoint span (p : ascii → bool) (s : string) : string * string :=
  match s with
  | EmptyString => (EmptyString, EmptyString)
  | String c rest =>
      if p c
      then let '(taken, after) := span p rest in (String c taken, after)
      else (EmptyString, s)
  end.

(** [lit$] on the rest of the subject: without [re.MULTILINE], [$] matches
    at the end of the string and also just before a line feed that ends
    it. *)
Definition literal_then_end (lit rest : string) : bool :=
  bool_decide (rest = lit) || bool_decide (rest = (lit ++ LF)%string).

(** A literal of the pattern at the front of the subject: what follows it,
    if the subject starts with it. *)
Fixpoint strip_prefix (lit s : string) : option string :=
  match lit with
  | EmptyString => Some s
  | String c lit' =>
      match s with
      | String d s' => if bool_decide (c = d) then strip_prefix lit' s' else None
      | EmptyString => None
      end
  end.

(** [re.match(r"^[A-Z]{3}_[a-z]+_(\d+)\.png$", name)]: group 1 of the match,
    if there is one.  Each class excludes the literal after it, so the greedy
    scan is the only way to match. *)
Definition match_image (name : string) : option string :=
  match name with
  | String a (String b (String c rest)) =>
      if is_upper a && is_upper b && is_upper c then
        match strip_prefix "_" rest with
        | Some rest =>
            let '(municipality, rest) := span is_lower rest in
            if bool_decide (municipality = "") then None else
            match strip_prefix "_" rest with
            | Some rest =>
                let '(digits, rest) := span is_digit rest in
                if bool_decide (digits = "") then None else
                if literal_then_end ".png" rest then Some digits else None
            | None => None
            end
        | None => None
        end
      else None
  | _ => None
  end.

(** [re.match(r"^flag_(\d+)_metadata\.json$", name)] *)
Definition match_metadata (name : string) : option string :=
  match strip_prefix "flag_" name with
  | Some rest =>
      let '(digits, rest) := span is_digit rest in
      if bool_decide (digits = "") then None else
      if literal_then_end "_metadata.json" rest then Some digits else None
  | None => None
  end.

(** Every character of a string is in a class. *)
Fixpoint all_chars (p : ascii → bool) (s : string) : bool :=
  match s with
  | EmptyString => true
  | String c rest => p c && all_chars p rest
  end.

(** The shape of an image name: three capitals, [_], one or more small
    letters, [_], one or more digits, [.png], and then [tail]. *)
Definition image_name_shape (tail name digits : string) : Prop :=
  ∃ a b c municipality,
    is_upper a = true ∧ is_upper b = true ∧ is_upper c = true
    ∧ municipality ≠ "" ∧ all_chars is_lower municipality = true
    ∧ digits ≠ "" ∧ all_chars is_digit digits = true
    ∧ name = String a (String b (String c
               ("_" ++ municipality ++ "_" ++ digits ++ ".png" ++ tail)))%string.

(** The shape of a metadata name: [flag_], one or more digits,
    [_metadata.json], and then [tail]. *)
Definition metadata_name_shape (tail name digits : string) : Prop :=
  digits ≠ "" ∧ all_chars is_digit digits = true
  ∧ name = ("flag_" ++ digits ++ "_metadata.json" ++ tail)%string.

(** [int(s)] on a string of decimal digits, leading zeros included; the
    integers of Python are unbounded. *)
Fixpoint int_from (acc : Z) (s : string) : Z :=
  match s with
  | EmptyString => acc
  | String c rest => int_from (10 * acc + (ord c - 48)) rest
  end.

Definition int (s : string) : Z := int_from 0 s.

(** One element of [rows]: [pin_name] is [pin["metadata"]["name"]] and
    [ipfs_pin_hash] the field of that name, [None] when absent or null. *)
Record Pin := {
  pin_name : option string;
  ipfs_pin_hash : option string
}.

(** What the pinning service answered. *)
Record PinataReply := {
  reply_status_code : Z;
  reply_text : string;
  reply_rows : list Pin
}.

(** The body of the loop over the pins, on the pair of dictionaries
    [(image_map, metadata_map)]. *)
Definition scan_pin (maps : gmap Z string * gmap Z string) (pin : Pin)
  : gmap Z string * gmap Z string :=
  let '(image_map, metadata_map) := maps in
  match pin_name pin, ipfs_pin_hash pin with
  | Some name, Some ipfs_hash =>
      if bool_decide (name = "") || bool_decide (ipfs_hash = "")
      then maps
      else
        match match_image name with
        | Some group1 => (<[int group1 := ipfs_hash]> image_map, metadata_map)
        | None =>
            match match_metadata name with
            | Some group1 =>
                (image_map, <[int group1 := ipfs_hash]> metadata_map)
            | None => maps
            end
        end
  | _, _ => maps
  end.

Definition build_maps (rows : list Pin) : gmap Z string * gmap Z string :=
  fold_left scan_pin rows (∅, ∅).

Definition set_image_ipfs_hash (flag : Flag) (h : option string) : Flag :=
  {| flag_id := flag_id flag;
     flag_municipality := flag_municipality flag;
     is_pair_complete := is_pair_complete flag;
     image_ipfs_hash := h;
     metadata_ipfs_hash := metadata_ipfs_hash flag |}.

Definition set_metadata_ipfs_hash (flag : Flag) (h : option string) : Flag :=
  {| flag_id := flag_id flag;
     flag_municipality := flag_municipality flag;
     is_pair_complete := is_pair_complete flag;
     image_ipfs_hash := image_ipfs_hash flag;
     metadata_ipfs_hash := h |}.

(** The body of the loop over the flags: the flag afterwards and
    [updated]. *)
Definition sync_flag (image_map metadata_map : gmap Z string) (flag : Flag)
  : Flag * bool :=
  let image_hash := image_map !! flag_id flag in
  let metadata_hash := metadata_map !! flag_id flag in
  let '(flag, updated) :=
    if truthy image_hash && bool_decide (image_ipfs_hash flag ≠ image_hash)
    then (set_image_ipfs_hash flag image_hash, true)
    else (flag, false) in
  if truthy metadata_hash
     && bool_decide (metadata_ipfs_hash flag ≠ metadata_hash)
  then (set_metadata_ipfs_hash flag metadata_hash, true)
  else (flag, updated).

(** The loop over the flags, threading [updated_count]. *)
Fixpoint sync_flags (image_map metadata_map : gmap Z string)
    (fs : list Flag) (updated_count : Z) : list Flag * Z :=
  match fs with
  | [] => ([], updated_count)
  | flag :: rest =>
      let '(flag', updated) := sync_flag image_map metadata_map flag in
      let updated_count :=
        if updated then updated_count + 1 else updated_count in
      let '(rest', updated_count) :=
        sync_flags image_map metadata_map rest updated_count in
      (flag' :: rest', updated_count)
  end.

Definition set_flags (db : Database) (fs : list Flag) : Database :=
  {| countries := countries db; regions := regions db;
     municipalities := municipalities db; flags := fs;
     users := users db; flag_interests := flag_interests db;
     flag_ownerships := flag_ownerships db; auctions := auctions db;
     bids := bids db; user_connections := user_connections db |}.

(** [len(d)] of a dictionary. *)
Definition len (d : gmap Z string) : Z := Z.of_nat (size d).

(** [sync_ipfs_from_pinata]; [reply] is what the service answers if it is
    asked. *)
Definition sync_ipfs_from_pinata (settings : Settings) (reply : PinataReply)
    (db : Database) : Outcome Body :=
  if negb (truthy (pinata_jwt settings))
  then {| response := HTTPException HTTP_400_BAD_REQUEST
                        "Pinata JWT not configured";
          store := db;
          calls := [] |}
  else if bool_decide (reply_status_code reply ≠ 200)
  then {| response := HTTPException HTTP_502_BAD_GATEWAY
                        ("Failed to fetch from Pinata: " ++ reply_text reply);
          store := db;
          calls := [CallPinataPinList] |}
  else
    let '(image_map, metadata_map) := build_maps (reply_rows reply) in
    let '(flags', updated_count) :=
      sync_flags image_map metadata_map (flags db) 0 in
    {| response := Return (SyncBody
         {| updated_count := updated_count;
            found_images := len image_map;
            found_metadata := len metadata_map |});
       store := set_flags db flags';
       calls := [CallPinataPinList] |}.

(** *** The protected routes *)

(** A route declared with [_: bool = Depends(verify_admin)]: the dependency
    is resolved first and its exception is the response; the function under
    the route runs only when it returned. *)
Definition depends_verify_admin (settings : Settings)
    (x_admin_key : option string) (endpoint : Database → Outcome Body)
    (db : Database) : Outcome Body :=
  match verify_admin settings x_admin_key with
  | Return _ => endpoint db
  | HTTPException status_code detail =>
      {| response := HTTPException status_code detail;
         store := db;
         calls := [] |}
  end.

(** The five routes of the router that declare the dependency. *)
Inductive AdminRoute :=
| GET_stats | POST_seed | POST_reset | GET_ipfs_status
| POST_sync_ipfs_from_pinata.

Definition endpoint_of (settings : Settings)
    (seed_database : Database → Database) (reply : PinataReply)
    (route : AdminRoute) : Database → Outcome Body :=
  match route with
  | GET_stats => get_admin_stats
  | POST_seed => seed_demo_data seed_database
  | POST_reset => reset_database
  | GET_ipfs_status => ipfs_status
  | POST_sync_ipfs_from_pinata => sync_ipfs_from_pinata settings reply
  end.

(** One request to a protected route. *)
Definition admin_request (settings : Settings)
    (seed_database : Database → Database) (reply : PinataReply)
    (route : AdminRoute) (x_admin_key : option string) (db : Database)
  : Outcome Body :=
  depends_verify_admin settings x_admin_key
    (endpoint_of settings seed_database reply route) db.

(** ** [main.py] *)

(** [startup_event]: [init_db] is the routine of [database.py], which is not
    among the sources, and is an argument like [seed_database]. *)
Definition startup_event (init_db seed_database : Database → Database)
    (db : Database) : Database * list Call :=
  let db := init_db db in
  let existing := count (countries db) in
  if existing =? 0
  then (seed_database db, [CallSeedDatabase db])
  else (db, []).

(** ** The auction, ownership and pairing core

    No source file implements this part; every definition below is modelled
    from the specification, on the same tables as the router. *)

(** Modelled from the spec: the error kinds of section 7, the
    [SelfOwnedAsset] of section 4.1, and the failure of the persistence
    collaborator inside a unit of work. *)
Inductive EngineError :=
| AuctionNotActive | AuctionClosed | BidTooLow | SelfOwnedAsset
| UnknownAuction | UnknownFlag | IllegalStateTransition
| InconsistentPairState | PersistenceFailure.

(** Modelled from the spec: a unit of work on the store.  A failing unit
    still hands back the store it had reached, so that what a failure leaves
    behind is visible; [atomically] is the scoped all-or-nothing commit of
    section 6. *)
Definition Tx (A : Type) : Type := Database → (EngineError + A) * Database.

Definition tx_ret {A} (a : A) : Tx A := λ db, (inr a, db).
Definition tx_fail {A} (e : EngineError) : Tx A := λ db, (inl e, db).
Definition tx_bind {A B} (m : Tx A) (k : A → Tx B) : Tx B :=
  λ db, match m db with
        | (inr a, db') => k a db'
        | (inl e, db') => (inl e, db')
        end.
Definition tx_read {A} (f : Database → A) : Tx A := λ db, (inr (f db), db).
Definition tx_write (f : Database → Database) : Tx unit :=
  λ db, (inr tt, f db).

Notation "x <- m ;; k" := (tx_bind m (λ x, k))
  (at level 90, m at level 89, right associativity).
Notation "m ;;; k" := (tx_bind m (λ _, k))
  (at level 90, right associativity).

Definition atomically {A} (m : Tx A) : Tx A :=
  λ db, match m db with
        | (inr a, db') => (inr a, db')
        | (inl e, _) => (inl e, db)
        end.

Definition set_flag_ownerships (db : Database) (os : list FlagOwnership)
  : Database :=
  {| countries := countries db; regions := regions db;
     municipalities := municipalities db; flags := flags db;
     users := users db; flag_interests := flag_interests db;
     flag_ownerships := os; auctions := auctions db;
     bids := bids db; user_connections := user_connections db |}.

Definition set_flag_interests (db : Database) (rows : list FlagInterest)
  : Database :=
  {| countries := countries db; regions := regions db;
     municipalities := municipalities db; flags := flags db;
     users := users db; flag_interests := rows;
     flag_ownerships := flag_ownerships db; auctions := auctions db;
     bids := bids db; user_connections := user_connections db |}.

Definition set_auctions (db : Database) (as_ : list Auction) : Database :=
  {| countries := countries db; regions := regions db;
     municipalities := municipalities db; flags := flags db;
     users := users db; flag_interests := flag_interests db;
     flag_ownerships := flag_ownerships db; auctions := as_;
     bids := bids db; user_connections := user_connections db |}.

Definition set_bids (db : Database) (bs : list Bid) : Database :=
  {| countries := countries db; regions := regions db;
     municipalities := municipalities db; flags := flags db;
     users := users db; flag_interests := flag_interests db;
     flag_ownerships := flag_ownerships db; auctions := auctions db;
     bids := bs; user_connections := user_connections db |}.

Definition set_is_pair_complete (flag : Flag) (v : bool) : Flag :=
  {| flag_id := flag_id flag;
     flag_municipality := flag_municipality flag;
     is_pair_complete := v;
     image_ipfs_hash := image_ipfs_hash flag;
     metadata_ipfs_hash := metadata_ipfs_hash flag |}.

Definition set_status (a : Auction) (s : AuctionStatus) (w : option Z)
  : Auction :=
  {| auction_id := auction_id a; auction_flag := auction_flag a;
     auction_status := s; open_at := open_at a; close_at := close_at a;
     reserve_price := reserve_price a; auction_winner := w |}.

(** A primary key above every key in use. *)
Definition fresh_key {A} (key : A → Z) (rows : list A) : Z :=
  1 + fold_right Z.max 0 (key <$> rows).

Definition find_auction (id : Z) (db : Database) : option Auction :=
  List.find (λ a, bool_decide (auction_id a = id)) (auctions db).

Definition find_flag (id : Z) (db : Database) : option Flag :=
  List.find (λ f, bool_decide (flag_id f = id)) (flags db).

(** Modelled from the spec: [getOwnership(flagId) -> userId | none]. *)
Definition getOwnership (flag : Z) (db : Database) : option Z :=
  ownership_user <$>
    List.find (λ o, bool_decide (ownership_flag o = flag)) (flag_ownerships db).

(** Modelled from the spec: [getPairStatus(flagId) -> bool], the stored
    projection. *)
Definition getPairStatus (flag : Z) (db : Database) : bool :=
  match find_flag flag db with
  | Some f => is_pair_complete f
  | None => false
  end.

(** Modelled from the spec: the bids recorded against one auction, in the
    order in which they were appended. *)
Definition ledger (auction : Z) (db : Database) : list Bid :=
  List.filter (λ b, bool_decide (bid_auction b = auction)) (bids db).

(** Modelled from the spec: one bid beats another on a greater amount, and
    on an equal amount by the earlier timestamp. *)
Definition beats (b best : Bid) : bool :=
  (bid_amount best <? bid_amount b)
  || ((bid_amount b =? bid_amount best)
      && (bid_timestamp b <? bid_timestamp best)).

Definition keep_best (best : option Bid) (b : Bid) : option Bid :=
  match best with
  | None => Some b
  | Some cur => if beats b cur then Some b else Some cur
  end.

(** Modelled from the spec: [highestBid(auctionId)], one pass over the
    ledger. *)
Definition highestBid (auction : Z) (db : Database) : option Bid :=
  fold_left keep_best (ledger auction db) None.

(** Modelled from the spec: what a new bid has to exceed: the highest
    accepted bid, or the reserve price when no bid exists yet. *)
Definition floor_of (a : Auction) (db : Database) : Z :=
  match highestBid (auction_id a) db with
  | Some b => bid_amount b
  | None => reserve_price a
  end.

Section Core.

(** Modelled from the spec: pair-mate resolution is a catalog lookup of an
    excluded collaborator, and the self-dealing rule is a policy flag. *)
Variable mate : Z → Z.
Variable reject_self_owned : bool.

(** Modelled from the spec: the same-owner rule of section 4.4. *)
Definition pair_rule (flag : Z) (db : Database) : bool :=
  match getOwnership flag db, getOwnership (mate flag) db with
  | Some u, Some v => bool_decide (u = v)
  | _, _ => false
  end.

(** Modelled from the spec: [recompute(flagId)] loads both owners, applies
    the rule and stores the result on both sides of the pair. *)
Definition recompute (flag : Z) (db : Database) : Database :=
  let v := pair_rule flag db in
  set_flags db
    (map (λ f, if bool_decide (flag_id f = flag)
                  || bool_decide (flag_id f = mate flag)
               then set_is_pair_complete f v else f)
         (flags db)).

(** Modelled from the spec: write or overwrite the ownership record of a
    flag, replacing any prior owner. *)
Definition write_ownership (flag user : Z) (db : Database) : Database :=
  set_flag_ownerships db
    ({| ownership_id := fresh_key ownership_id (flag_ownerships db);
        ownership_user := user;
        ownership_flag := flag |}
     :: List.filter (λ o, negb (bool_decide (ownership_flag o = flag)))
                    (flag_ownerships db)).

(** Modelled from the spec: [createAuction]; the auction is [ACTIVE] at once
    when its opening time is not in the future. *)
Definition createAuction (now flag openAt closeAt reservePrice : Z)
  : Tx Z :=
  λ db,
    match find_flag flag db with
    | None => (inl UnknownFlag, db)
    | Some _ =>
        let id := fresh_key auction_id (auctions db) in
        (inr id,
         set_auctions db
           (auctions db ++
            [{| auction_id := id; auction_flag := flag;
                auction_status := if openAt <=? now then ACTIVE else PENDING;
                open_at := openAt; close_at := closeAt;
                reserve_price := reservePrice; auction_winner := None |}]))
    end.

(** Modelled from the spec: the two transitions that the clock triggers. *)
Definition advance (now : Z) (a : Auction) : Auction :=
  let a := if bool_decide (auction_status a = PENDING) && (open_at a <=? now)
           then set_status a ACTIVE (auction_winner a) else a in
  if bool_decide (auction_status a = ACTIVE) && (close_at a <=? now)
  then set_status a CLOSING (auction_winner a) else a.

Definition tick (now : Z) (db : Database) : Database :=
  set_auctions db (map (advance now) (auctions db)).

(** Modelled from the spec: [placeBid] at clock reading [now].  A bid at or
    after the closing time is refused as [AuctionClosed] whatever else holds
    (section 8: always, regardless of amount); then come the state, the
    amount and the optional policy. *)
Definition placeBid (now auction user amount : Z) : Tx Z :=
  λ db,
    match find_auction auction db with
    | None => (inl UnknownAuction, db)
    | Some a =>
        if close_at a <=? now then (inl AuctionClosed, db)
        else if negb (bool_decide (auction_status a = ACTIVE))
        then (inl AuctionNotActive, db)
        else if amount <=? floor_of a db then (inl BidTooLow, db)
        else if reject_self_owned
                && bool_decide (getOwnership (mate (auction_flag a)) db
                                = Some user)
        then (inl SelfOwnedAsset, db)
        else
          let id := fresh_key bid_id (bids db) in
          (inr id,
           set_bids db
             (bids db ++
              [{| bid_id := id; bid_auction := auction; bid_bidder := user;
                  bid_amount := amount; bid_timestamp := now |}]))
    end.

(** Modelled from the spec: the four steps of a settlement. *)
Inductive SettleStep :=
| DetermineWinner | WriteOwnership | RecomputePair | MarkSettled.

(** Modelled from the spec: a step the collaborators fail; a failed
    recomputation is the [InconsistentPairState] of section 7. *)
Definition checkpoint (fails : SettleStep → bool) (step : SettleStep)
  : Tx unit :=
  if fails step
  then tx_fail (match step with
                | RecomputePair => InconsistentPairState
                | _ => PersistenceFailure
                end)
  else tx_ret tt.

Definition mark_settled (auction : Z) (winner : option Z) (db : Database)
  : Database :=
  set_auctions db
    (map (λ a, if bool_decide (auction_id a = auction)
               then set_status a SETTLED winner else a)
         (auctions db)).

(** Modelled from the spec: the steps of [settle], not yet made atomic. *)
Definition settle_steps (fails : SettleStep → bool) (auction : Z)
  : Tx (option Z) :=
  a <- tx_read (find_auction auction) ;;
  match a with
  | None => tx_fail UnknownAuction
  | Some a =>
      match auction_status a with
      | SETTLED => tx_ret (auction_winner a)
      | CLOSING =>
          checkpoint fails DetermineWinner ;;;
          best <- tx_read (highestBid auction) ;;
          match best with
          | None =>
              checkpoint fails MarkSettled ;;;
              tx_write (mark_settled auction None) ;;;
              tx_ret None
          | Some b =>
              checkpoint fails WriteOwnership ;;;
              tx_write (write_ownership (auction_flag a) (bid_bidder b)) ;;;
              checkpoint fails RecomputePair ;;;
              tx_write (recompute (auction_flag a)) ;;;
              checkpoint fails MarkSettled ;;;
              tx_write (mark_settled auction (Some (bid_bidder b))) ;;;
              tx_ret (Some (bid_bidder b))
          end
      | _ => tx_fail IllegalStateTransition
      end
  end.

(** Modelled from the spec: [settle(auctionId) -> {winnerUserId | none}],
    the steps as one atomic unit. *)
Definition settle (fails : SettleStep → bool) (auction : Z)
  : Tx (option Z) :=
  atomically (settle_steps fails auction).

(** Modelled from the spec: [cancelAuction], immediate and unconditional
    except for the [SETTLED] guard (sections 4.1 and 5). *)
Definition cancelAuction (auction : Z) : Tx unit :=
  λ db,
    match find_auction auction db with
    | None => (inl UnknownAuction, db)
    | Some a =>
        if bool_decide (auction_status a = SETTLED)
        then (inl IllegalStateTransition, db)
        else
          (inr tt,
           set_auctions db
             (map (λ a, if bool_decide (auction_id a = auction)
                        then set_status a CANCELLED (auction_winner a)
                        else a)
                  (auctions db)))
    end.

(** Modelled from the spec: [recordInterest], which leaves one logical
    record however often it is called. *)
Definition recordInterest (user flag : Z) (db : Database) : Database :=
  if existsb (λ i, bool_decide (interest_user i = user)
                   && bool_decide (interest_flag i = flag))
             (flag_interests db)
  then db
  else set_flag_interests db
         (flag_interests db ++
          [{| interest_id := fresh_key interest_id (flag_interests db);
              interest_user := user; interest_flag := flag |}]).




(** Modelled from the spec: what the system can do to the store: the
    operations of the core, and the two routes of the router that write to
    the tables of the core. *)
Inductive Step :=
| DoCreateAuction (now flag openAt closeAt reservePrice : Z)
| DoTick (now : Z)
| DoPlaceBid (now auction user amount : Z)
| DoSettle (fails : SettleStep → bool) (auction : Z)
| DoCancelAuction (auction : Z)
| DoRecordInterest (user flag : Z)
| DoReset
| DoSyncIpfs (settings : Settings) (reply : PinataReply).

Definition run_step (s : Step) (db : Database) : Database :=
  match s with
  | DoCreateAuction now flag o c r => snd (createAuction now flag o c r db)
  | DoTick now => tick now db
  | DoPlaceBid now auction user amount =>
      snd (placeBid now auction user amount db)
  | DoSettle fails auction => snd (settle fails auction db)
  | DoCancelAuction auction => snd (cancelAuction auction db)
  | DoRecordInterest user flag => recordInterest user flag db
  | DoReset => store (reset_database db)
  | DoSyncIpfs settings reply => store (sync_ipfs_from_pinata settings reply db)
  end.

(** Modelled from the spec: a catalog on which nothing has been settled
    yet: no ownership record, no flag marked complete. *)
Definition pristine (db : Database) : Prop :=
  flag_ownerships db = [] ∧ Forall (λ f, is_pair_complete f = false) (flags db).

(** Modelled from the spec: the stores that the system reaches from a
    pristine catalog. *)
Inductive reachable : Database → Prop :=
| reachable_pristine db : pristine db → reachable db
| reachable_step db s : reachable db → reachable (run_step s db).

End Core.

(** ** Notions used in the statements, and a small store to run the
    definitions on *)

Definition sample_flag (id : Z) : Flag :=
  {| flag_id := id; flag_municipality := 1; is_pair_complete := false;
     image_ipfs_hash := None; metadata_ipfs_hash := None |}.

Definition sample_auction : Auction :=
  {| auction_id := 1; auction_flag := 64; auction_status := ACTIVE;
     open_at := 0; close_at := 100; reserve_price := 10;
     auction_winner := None |}.

Definition sample_db : Database :=
  {| countries := [{| country_id := 1 |}];
     regions := [{| region_id := 1; region_country := 1 |}];
     municipalities := [{| municipality_id := 1; municipality_region := 1 |}];
     flags := [sample_flag 64; sample_flag 65];
     users := [{| user_id := 1 |}; {| user_id := 2 |}];
     flag_interests :=
       [{| interest_id := 1; interest_user := 1; interest_flag := 65 |}];
     flag_ownerships := [];
     auctions := [sample_auction];
     bids := [];
     user_connections :=
       [{| connection_id := 1; connection_follower := 1;
           connection_following := 2 |}] |}.

Definition sample_settings : Settings :=
  {| admin_api_key := "secret"; pinata_jwt := Some "jwt";
     project_name := "Municipal Flag NFT Game"; environment := "test" |}.

Definition sample_reply : PinataReply :=
  {| reply_status_code := 200; reply_text := "";
     reply_rows :=
       [{| pin_name := Some "ITA_siena_064.png";
           ipfs_pin_hash := Some "QmImage64" |};
        {| pin_name := Some "flag_65_metadata.json";
           ipfs_pin_hash := Some "QmMeta65" |}] |}.

(** The pair-mates of the sample catalog: 64 with 65, and so on in twos. *)
Definition sample_mate (flag : Z) : Z := Z.lxor flag 1.

(** Two ways for the collaborators to behave: no step fails, or the
    recomputation does. *)
Definition no_failure : SettleStep → bool := λ _, false.

Definition recompute_fails : SettleStep → bool :=
  λ step, match step with RecomputePair => true | _ => false end.

(** A bid of 15 by user 2 at time 5, then the clock reaches the closing
    time. *)
Definition sample_closing_db : Database :=
  tick 100 (placeBid sample_mate false 5 1 2 15 sample_db).2.

Definition sample_closing_auction : Auction :=
  set_status sample_auction CLOSING None.

(** What the steps of a settlement do to the store, case by case. *)
Inductive settle_outcome (mate : Z → Z) (auction : Z) (db : Database)
  : (EngineError + option Z) * Database → Prop :=
| settle_unknown :
    find_auction auction db = None →
    settle_outcome mate auction db (inl UnknownAuction, db)
| settle_again a :
    find_auction auction db = Some a →
    auction_status a = SETTLED →
    settle_outcome mate auction db (inr (auction_winner a), db)
| settle_illegal a :
    find_auction auction db = Some a →
    auction_status a ≠ SETTLED → auction_status a ≠ CLOSING →
    settle_outcome mate auction db (inl IllegalStateTransition, db)
| settle_failed a e db' :
    find_auction auction db = Some a →
    auction_status a = CLOSING →
    settle_outcome mate auction db (inl e, db')
| settle_no_bid a :
    find_auction auction db = Some a →
    auction_status a = CLOSING →
    highestBid auction db = None →
    settle_outcome mate auction db (inr None, mark_settled auction None db)
| settle_won a b :
    find_auction auction db = Some a →
    auction_status a = CLOSING →
    highestBid auction db = Some b →
    settle_outcome mate auction db
      (inr (Some (bid_bidder b)),
       mark_settled auction (Some (bid_bidder b))
         (recompute mate (auction_flag a)
            (write_ownership (auction_flag a) (bid_bidder b) db))).







(** The stored flag of every row is what the same-owner rule gives. *)
Definition pair_invariant (mate : Z → Z) (db : Database) : Prop :=
  Forall (λ f, is_pair_complete f = pair_rule mate (flag_id f) db) (flags db).

Definition run_steps (mate : Z → Z) (reject_self_owned : bool)
    (steps : list Step) (db : Database) : Database :=
  fold_left (λ d s, run_step mate reject_self_owned s d) steps db.

(** User 2 wins the auction on flag 64 and a second auction on its mate,
    flag 65. *)
Definition sample_scenario : list Step :=
  [ DoPlaceBid 5 1 2 15;
    DoCreateAuction 6 65 0 100 10;
    DoPlaceBid 7 2 1 12;
    DoPlaceBid 8 2 2 20;
    DoTick 100;
    DoSettle no_failure 1;
    DoSettle no_failure 2 ].

Definition sample_settled_db : Database :=
  run_steps sample_mate false sample_scenario sample_db.

Definition starts_outside (p : ascii → bool) (s : string) : Prop :=
  match s with
  | String c _ => p c = false
  | EmptyString => True
  end.

(** A pin that puts hash [h] under key [k] of [image_map]. *)
Definition image_source (rows : list Pin) (k : Z) (h : string) : Prop :=
  ∃ pin name digits,
    pin ∈ rows ∧ pin_name pin = Some name ∧ ipfs_pin_hash pin = Some h
    ∧ h ≠ "" ∧ match_image name = Some digits ∧ int digits = k.

(** A pin that puts hash [h] under key [k] of [metadata_map]. *)
Definition metadata_source (rows : list Pin) (k : Z) (h : string) : Prop :=
  ∃ pin name digits,
    pin ∈ rows ∧ pin_name pin = Some name ∧ ipfs_pin_hash pin = Some h
    ∧ h ≠ "" ∧ match_metadata name = Some digits ∧ int digits = k.

#[global] Instance Flag_eq_dec : EqDecision Flag.
Proof. solve_decision. Defined.

(** The last character of a string. *)
Fixpoint last_char (s : string) : option ascii :=
  match s with
  | EmptyString => None
  | String c rest =>
      match last_char rest with
      | Some d => Some d
      | None => Some c
      end
  end.

(** A reply with one pin, whose name is an image name and a line feed. *)
Definition line_feed_name : string := ("ITA_siena_064.png" ++ LF)%string.

Definition line_feed_reply : PinataReply :=
  {| reply_status_code := 200; reply_text := "";
     reply_rows := [{| pin_name := Some line_feed_name;
                       ipfs_pin_hash := Some "QmImage64" |}] |}.

(** * Properties *)

(** ** Counting *)

Lemma count_nonneg {A} (rows : list A) : 0 ≤ count rows.
Proof. unfold count. lia. Qed.

Lemma count_where_split {A} (p : A → bool) (rows : list A) :
  count_where p rows + count_where (λ x, negb (p x)) rows = count rows.
Proof.
  unfold count_where, count.
  induction rows as [|x rows IH]; simpl; [reflexivity|].
  destruct (p x); simpl length; lia.
Qed.

Lemma count_where_ext {A} (p q : A → bool) (rows : list A) :
  (∀ x, x ∈ rows → p x = q x) → count_where p rows = count_where q rows.
Proof.
  unfold count_where. intros H. f_equal.
  induction rows as [|x rows IH]; simpl; [reflexivity|].
  rewrite (H x) by (left).
  rewrite IH by (intros y Hy; apply H; right; exact Hy).
  reflexivity.
Qed.

Lemma count_zero_nil {A} (rows : list A) : count rows = 0 ↔ rows = [].
Proof.
  unfold count. destruct rows; simpl; split; intros H;
    try reflexivity; try discriminate; lia.
Qed.

(** ** The status report of the pinning columns *)

(** C10: in the report of [ipfs_status], over every store,
    [flags_pending_upload] is [total_flags - flags_with_image_hash], it is
    the number of flags whose [image_ipfs_hash] is null, and it is not
    negative. *)
Theorem ipfs_status_pending_upload (db : Database) :
  ∃ s : IpfsStatus,
    response (ipfs_status db) = Return (IpfsStatusBody s)
    ∧ ipfs_total_flags s = count (flags db)
    ∧ flags_with_image_hash s
      = count_where (λ f, isnot_None (image_ipfs_hash f)) (flags db)
    ∧ flags_pending_upload s = ipfs_total_flags s - flags_with_image_hash s
    ∧ flags_pending_upload s
      = count_where (λ f, bool_decide (image_ipfs_hash f = None)) (flags db)
    ∧ 0 ≤ flags_pending_upload s.
Proof.
  eexists. split; [reflexivity|]. cbn [ipfs_total_flags flags_with_image_hash
    flags_pending_upload].
  assert (Hnull :
    count_where (λ f, bool_decide (image_ipfs_hash f = None)) (flags db)
    = count (flags db)
      - count_where (λ f, isnot_None (image_ipfs_hash f)) (flags db)).
  { pose proof (count_where_split (λ f, isnot_None (image_ipfs_hash f))
                                  (flags db)) as Hs.
    cbv beta in Hs.
    rewrite (count_where_ext _ (λ f, negb (isnot_None (image_ipfs_hash f)))).
    - lia.
    - intros f _. destruct (image_ipfs_hash f); reflexivity. }
  repeat split; try reflexivity.
  - symmetry. exact Hnull.
  - rewrite <- Hnull. apply count_nonneg.
Qed.

(** ** The admin key *)

Lemma verify_admin_accepts (settings : Settings) :
  verify_admin settings (Some (admin_api_key settings)) = Return true.
Proof.
  unfold verify_admin. rewrite bool_decide_eq_false_2; [reflexivity|].
  intros H. apply H. reflexivity.
Qed.

Lemma verify_admin_rejects (settings : Settings) (key : option string) :
  key ≠ Some (admin_api_key settings) →
  verify_admin settings key
  = HTTPException HTTP_403_FORBIDDEN "Invalid or missing admin API key".
Proof.
  intros H. unfold verify_admin. rewrite bool_decide_eq_true_2; done.
Qed.

(** No function under a protected route answers 403 itself. *)
Lemma endpoint_never_403 settings seed_database reply route db :
  status_of (response (endpoint_of settings seed_database reply route db))
  ≠ HTTP_403_FORBIDDEN.
Proof.
  destruct route; simpl; try discriminate.
  - unfold seed_demo_data. destruct (0 <? count (countries db)); discriminate.
  - unfold sync_ipfs_from_pinata.
    destruct (negb (truthy (pinata_jwt settings))); [discriminate|].
    destruct (bool_decide (reply_status_code reply ≠ 200)); [discriminate|].
    destruct (build_maps (reply_rows reply)) as [im mm].
    destruct (sync_flags im mm (flags db) 0). discriminate.
Qed.

Lemma admin_request_unfold settings seed_database reply route
    (x_admin_key : option string) (db : Database) :
  admin_request settings seed_database reply route x_admin_key db
  = (if bool_decide (x_admin_key = Some (admin_api_key settings))
     then endpoint_of settings seed_database reply route db
     else {| response := HTTPException HTTP_403_FORBIDDEN
                           "Invalid or missing admin API key";
             store := db;
             calls := [] |}).
Proof.
  unfold admin_request, depends_verify_admin.
  destruct (decide (x_admin_key = Some (admin_api_key settings))) as [->|Hne].
  - rewrite verify_admin_accepts, bool_decide_eq_true_2 by reflexivity.
    reflexivity.
  - rewrite (verify_admin_rejects _ _ Hne), bool_decide_eq_false_2 by exact Hne.
    reflexivity.
Qed.

(** C3: for each of the five protected routes and every request, the
    function under the route runs exactly when the [X-Admin-Key] header is
    the configured key; with any other header, or none, the response is 403,
    the store is as it was and nothing outside was called. *)
Theorem admin_key_decides settings seed_database reply route
    (x_admin_key : option string) (db : Database) :
  admin_request settings seed_database reply route x_admin_key db
  = (if bool_decide (x_admin_key = Some (admin_api_key settings))
     then endpoint_of settings seed_database reply route db
     else {| response := HTTPException HTTP_403_FORBIDDEN
                           "Invalid or missing admin API key";
             store := db;
             calls := [] |})
  ∧ (status_of (response (admin_request settings seed_database reply route
                                        x_admin_key db))
     = HTTP_403_FORBIDDEN
     ↔ x_admin_key ≠ Some (admin_api_key settings)).
Proof.
  split; [apply admin_request_unfold|].
  rewrite admin_request_unfold.
  destruct (decide (x_admin_key = Some (admin_api_key settings))) as [->|Hne].
  - rewrite bool_decide_eq_true_2 by reflexivity. split.
    + intros H. exfalso. revert H. apply endpoint_never_403.
    + intros H. exfalso. apply H. reflexivity.
  - rewrite bool_decide_eq_false_2 by exact Hne.
    split; intros _; [exact Hne|reflexivity].
Qed.

(** ** Seeding *)

Lemma count_pos_iff {A} (rows : list A) : (0 <? count rows) = true ↔ rows ≠ [].
Proof.
  unfold count. destruct rows; simpl; split; intros H;
    try discriminate; try (exfalso; apply H; reflexivity);
    try (apply Z.ltb_lt; lia).
Qed.

Lemma seed_demo_data_refuses seed_database db :
  countries db ≠ [] →
  seed_demo_data seed_database db
  = {| response := HTTPException HTTP_400_BAD_REQUEST
                     "Database already has data. Cannot seed.";
       store := db;
       calls := [] |}.
Proof.
  intros H. unfold seed_demo_data.
  apply count_pos_iff in H. rewrite H. reflexivity.
Qed.

Lemma seed_demo_data_calls seed_database db on :
  CallSeedDatabase on ∈ calls (seed_demo_data seed_database db) →
  on = db ∧ countries db = [].
Proof.
  unfold seed_demo_data.
  destruct (0 <? count (countries db)) eqn:E; simpl; intros H.
  - inversion H.
  - apply list_elem_of_singleton in H. inversion H; subst on. split; [done|].
    destruct (countries db) as [|c cs] eqn:Ec; [done|].
    exfalso. assert (Hne : c :: cs ≠ []) by discriminate.
    apply count_pos_iff in Hne. congruence.
Qed.

(** Under referential integrity a store without countries has no region,
    no municipality and no flag: its catalog is empty. *)
Lemma no_country_no_catalog db :
  foreign_keys_ok db → countries db = [] →
  regions db = [] ∧ municipalities db = [] ∧ flags db = [].
Proof.
  intros (H1 & H2 & H3 & _) Hc. unfold has_key in *.
  assert (Hr : regions db = []).
  { destruct (regions db) as [|r rs]; [reflexivity|].
    apply Forall_cons in H1 as [H1 _]. rewrite Hc in H1. inversion H1. }
  assert (Hm : municipalities db = []).
  { destruct (municipalities db) as [|m ms]; [reflexivity|].
    apply Forall_cons in H2 as [H2 _]. rewrite Hr in H2. inversion H2. }
  repeat split; try assumption.
  destruct (flags db) as [|f fs]; [reflexivity|].
  apply Forall_cons in H3 as [H3 _]. rewrite Hm in H3. inversion H3.
Qed.

(** C8: when a [Country] row exists, the function under the seed route
    raises 400 and the request leaves the store as it was and calls no
    seeding, whatever the key (with the configured key the response is that
    400); the startup hook then leaves the store to [init_db] alone; a call
    of [seed_database], from any protected route or from the startup hook,
    is made on a store without [Country] rows; and such a store, when its
    foreign keys resolve, has an empty catalog. *)
Theorem seeding_guarded_by_emptiness settings init_db seed_database reply
    (db : Database) :
  (countries db ≠ [] →
     admin_request settings seed_database reply POST_seed
                   (Some (admin_api_key settings)) db
     = {| response := HTTPException HTTP_400_BAD_REQUEST
                        "Database already has data. Cannot seed.";
          store := db;
          calls := [] |}
     ∧ ∀ key,
         store (admin_request settings seed_database reply POST_seed key db)
         = db
         ∧ calls (admin_request settings seed_database reply POST_seed key db)
           = [])
  ∧ (countries (init_db db) ≠ [] →
       startup_event init_db seed_database db = (init_db db, []))
  ∧ (∀ route key on,
       CallSeedDatabase on
         ∈ calls (admin_request settings seed_database reply route key db) →
       route = POST_seed ∧ on = db ∧ countries on = [])
  ∧ (∀ on,
       CallSeedDatabase on ∈ (startup_event init_db seed_database db).2 →
       on = init_db db ∧ countries on = [])
  ∧ (∀ on, countries on = [] → foreign_keys_ok on →
           regions on = [] ∧ municipalities on = [] ∧ flags on = []).
Proof.
  assert (Hcat : ∀ on, countries on = [] → foreign_keys_ok on →
                       regions on = [] ∧ municipalities on = []
                       ∧ flags on = []).
  { intros on Hc Hfk. apply no_country_no_catalog; assumption. }
  split; [|split; [|split; [|split; [|exact Hcat]]]]; repeat split.
  - rewrite admin_request_unfold.
    rewrite bool_decide_eq_true_2 by reflexivity. simpl.
    apply seed_demo_data_refuses. assumption.
  - rewrite admin_request_unfold.
    destruct (bool_decide _); [|reflexivity]. simpl.
    rewrite seed_demo_data_refuses by assumption. reflexivity.
  - rewrite admin_request_unfold.
    destruct (bool_decide _); [|reflexivity]. simpl.
    rewrite seed_demo_data_refuses by assumption. reflexivity.
  - intros H. unfold startup_event.
    assert (E : (count (countries (init_db db)) =? 0) = false).
    { apply Z.eqb_neq. intros E. apply count_zero_nil in E. contradiction. }
    rewrite E. reflexivity.
  - rewrite admin_request_unfold in H.
    destruct (bool_decide _); [|inversion H].
    destruct route; simpl in H; try (inversion H; fail); try reflexivity.
    unfold sync_ipfs_from_pinata in H.
    destruct (negb _); [inversion H|].
    destruct (bool_decide _).
    + apply list_elem_of_singleton in H. discriminate.
    + destruct (build_maps _) as [im mm]. destruct (sync_flags _ _ _ _).
      apply list_elem_of_singleton in H. discriminate.
  - rewrite admin_request_unfold in H.
    destruct (bool_decide _); [|inversion H].
    destruct route; simpl in H; try (inversion H; fail).
    + apply seed_demo_data_calls in H. tauto.
    + unfold sync_ipfs_from_pinata in H.
      destruct (negb _); [inversion H|].
      destruct (bool_decide _).
      * apply list_elem_of_singleton in H. discriminate.
      * destruct (build_maps _) as [im mm]. destruct (sync_flags _ _ _ _).
        apply list_elem_of_singleton in H. discriminate.
  - rewrite admin_request_unfold in H.
    destruct (bool_decide _); [|inversion H].
    destruct route; simpl in H; try (inversion H; fail).
    + apply seed_demo_data_calls in H. destruct H as [-> H]. exact H.
    + unfold sync_ipfs_from_pinata in H.
      destruct (negb _); [inversion H|].
      destruct (bool_decide _).
      * apply list_elem_of_singleton in H. discriminate.
      * destruct (build_maps _) as [im mm]. destruct (sync_flags _ _ _ _).
        apply list_elem_of_singleton in H. discriminate.
  - unfold startup_event in H.
    destruct (count (countries (init_db db)) =? 0); simpl in H;
      [|inversion H].
    apply list_elem_of_singleton in H. congruence.
  - unfold startup_event in H.
    destruct (count (countries (init_db db)) =? 0) eqn:E; simpl in H;
      [|inversion H].
    apply list_elem_of_singleton in H. inversion H; subst on.
    apply Z.eqb_eq in E. apply count_zero_nil in E. exact E.
Qed.

Lemma seeding_guarded_by_emptiness_witness :
  admin_request sample_settings (λ db, db) sample_reply POST_seed
                (Some "secret") sample_db
  = {| response := HTTPException HTTP_400_BAD_REQUEST
                     "Database already has data. Cannot seed.";
       store := sample_db;
       calls := [] |}.
Proof.
  destruct (seeding_guarded_by_emptiness sample_settings (λ db, db)
              (λ db, db) sample_reply sample_db) as [H _].
  apply H. discriminate.
Defined.

(** ** The reset *)

Lemma reset_after_all db : reset_after 10 db = store (reset_database db).
Proof. reflexivity. Qed.

Lemma reset_after_beyond n db :
  (10 ≤ n)%nat → reset_after n db = empty_database.
Proof.
  intros H. unfold reset_after.
  rewrite take_ge by (simpl; lia). reflexivity.
Qed.

(** The classes whose rows a class refers to come later in the reset. *)
Lemma reset_order_respects_references m r i j :
  r ∈ references m →
  position m reset_statements = Some i →
  position r reset_statements = Some j →
  (i < j)%nat.
Proof.
  intros Hr Hi Hj.
  destruct m; simpl in Hr;
    repeat (apply elem_of_cons in Hr as [->|Hr]);
    try (inversion Hr; fail);
    vm_compute in Hi, Hj; inversion Hi; inversion Hj; lia.
Qed.

(** When a statement deletes a class, no row that refers to it is left. *)
Lemma reset_dependents_gone n m d db :
  reset_statements !! n = Some m →
  m ∈ references d →
  rows_of d (reset_after n db) = 0.
Proof.
  intros Hn Hd.
  do 10 (destruct n as [|n];
         [inversion Hn; subst m;
          destruct d; simpl in Hd;
          repeat (apply elem_of_cons in Hd as [Hd|Hd]);
          try discriminate; try (inversion Hd; fail); reflexivity|]).
  inversion Hn.
Qed.

Lemma reset_keeps_foreign_keys n db :
  foreign_keys_ok db → foreign_keys_ok (reset_after n db).
Proof.
  intros (H1 & H2 & H3 & H4 & H5 & H6 & H7 & H8).
  do 10 (destruct n as [|n];
         [unfold foreign_keys_ok; cbn; repeat split;
          first [assumption | apply Forall_nil_2]|]).
  rewrite reset_after_beyond by lia.
  unfold foreign_keys_ok; cbn; repeat split; apply Forall_nil_2.
Qed.

(** C2: [reset_database] leaves every table empty; its statements delete a
    class before every class that it refers to, so that when a statement
    deletes a class no row referring to it is left: in particular the bids
    are gone when the auctions are deleted; and a store whose foreign keys
    all resolve keeps that property after each statement. *)
Theorem reset_database_cascades (db : Database) :
  store (reset_database db) = empty_database
  ∧ (∀ m, rows_of m (store (reset_database db)) = 0)
  ∧ (∀ m, ∃ i, position m reset_statements = Some i)
  ∧ (∀ m r i j,
       r ∈ references m →
       position m reset_statements = Some i →
       position r reset_statements = Some j →
       (i < j)%nat)
  ∧ (∀ n m d,
       reset_statements !! n = Some m →
       m ∈ references d →
       rows_of d (reset_after n db) = 0)
  ∧ (∀ n, reset_statements !! n = Some M_Auction →
          bids (reset_after n db) = [])
  ∧ (foreign_keys_ok db → ∀ n, foreign_keys_ok (reset_after n db)).
Proof.
  split; [reflexivity|].
  split; [intros m; destruct m; reflexivity|].
  split; [intros m; destruct m; vm_compute; eexists; reflexivity|].
  split; [apply reset_order_respects_references|].
  split; [intros n m d; apply reset_dependents_gone|].
  split.
  - intros n Hn.
    pose proof (reset_dependents_gone n M_Auction M_Bid db Hn) as H.
    apply count_zero_nil. apply H. simpl. left.
  - intros H n. apply reset_keeps_foreign_keys. exact H.
Qed.

Lemma reset_database_cascades_witness :
  foreign_keys_ok sample_db ∧ foreign_keys_ok (reset_after 4 sample_db).
Proof.
  assert (H0 : foreign_keys_ok sample_db).
  { unfold foreign_keys_ok, has_key. cbn.
    repeat split; repeat constructor. }
  split; [exact H0|].
  destruct (reset_database_cascades sample_db) as (_ & _ & _ & _ & _ & _ & H).
  apply H. exact H0.
Defined.

(** ** The core: lookups under the writes *)

Lemma find_map_same_key {A} (key : A → Z) (f : A → A) (id : Z) (l : list A) :
  (∀ a, key (f a) = key a) →
  List.find (λ a, bool_decide (key a = id)) (map f l)
  = f <$> List.find (λ a, bool_decide (key a = id)) l.
Proof.
  intros Hk. induction l as [|x l IH]; simpl; [reflexivity|].
  rewrite Hk. destruct (bool_decide (key x = id)); [reflexivity|exact IH].
Qed.


Lemma find_auction_mark_settled id w db :
  find_auction id (mark_settled id w db)
  = (λ a, set_status a SETTLED w) <$> find_auction id db.
Proof.
  unfold find_auction, mark_settled. simpl.
  rewrite find_map_same_key.
  - destruct (List.find _ (auctions db)) as [a|] eqn:E; simpl; [|reflexivity].
    apply find_some in E as [_ E]. rewrite E. reflexivity.
  - intros a. destruct (bool_decide _); reflexivity.
Qed.

(** ** Bids after the closing time *)

(** C7: for every auction on record and every bid whose clock reading is at
    or after the closing time of the auction, [placeBid] refuses the bid
    with [AuctionClosed] and leaves the store as it was, whatever the amount,
    the bidder, the state of the auction and the policy. *)
Theorem late_bid_rejected_AuctionClosed (mate : Z → Z)
    (reject_self_owned : bool) (now auction user amount : Z)
    (db : Database) (a : Auction) :
  find_auction auction db = Some a →
  close_at a ≤ now →
  placeBid mate reject_self_owned now auction user amount db
  = (inl AuctionClosed, db).
Proof.
  intros Ha Hlate. unfold placeBid. rewrite Ha.
  apply Z.leb_le in Hlate. rewrite Hlate. reflexivity.
Qed.

Lemma late_bid_rejected_AuctionClosed_witness :
  placeBid sample_mate true 100 1 2 1000000 sample_db
  = (inl AuctionClosed, sample_db).
Proof.
  apply (late_bid_rejected_AuctionClosed sample_mate true 100 1 2 1000000
           sample_db sample_auction).
  - reflexivity.
  - simpl. lia.
Defined.

(** ** Settlement *)

Lemma checkpoint_cases fails step db :
  (fails step = true ∧ ∃ e, checkpoint fails step db = (inl e, db))
  ∨ (fails step = false ∧ checkpoint fails step db = (inr tt, db)).
Proof.
  unfold checkpoint. destruct (fails step).
  - left. split; [reflexivity|]. eexists. reflexivity.
  - right. split; reflexivity.
Qed.

Lemma settle_steps_outcome mate fails auction db :
  settle_outcome mate auction db (settle_steps mate fails auction db).
Proof.
  unfold settle_steps, tx_bind, tx_read, tx_write, tx_ret, tx_fail.
  destruct (find_auction auction db) as [a|] eqn:Ha;
    [|apply settle_unknown; exact Ha].
  destruct (auction_status a) eqn:Hs;
    try (eapply settle_illegal; [exact Ha|congruence|congruence]).
  - destruct (checkpoint_cases fails DetermineWinner db)
      as [(_ & e & ->)|(_ & ->)];
      [eapply settle_failed; eassumption|].
    destruct (highestBid auction db) as [b|] eqn:Hb.
    + destruct (checkpoint_cases fails WriteOwnership db)
        as [(_ & e & ->)|(_ & ->)];
        [eapply settle_failed; eassumption|].
      match goal with
      | |- context [checkpoint fails RecomputePair ?d] =>
          destruct (checkpoint_cases fails RecomputePair d)
            as [(_ & e & ->)|(_ & ->)];
            [eapply settle_failed; eassumption|]
      end.
      match goal with
      | |- context [checkpoint fails MarkSettled ?d] =>
          destruct (checkpoint_cases fails MarkSettled d)
            as [(_ & e & ->)|(_ & ->)];
            [eapply settle_failed; eassumption|]
      end.
      eapply settle_won; eassumption.
    + destruct (checkpoint_cases fails MarkSettled db)
        as [(_ & e & ->)|(_ & ->)];
        [eapply settle_failed; eassumption|].
      eapply settle_no_bid; eassumption.
  - eapply settle_again; eassumption.
Qed.

(** The same cases for the atomic unit: a failure hands back the store it
    was given. *)
Lemma settle_cases mate fails auction db :
  settle_outcome mate auction db (settle mate fails auction db)
  ∧ ∀ e db', settle mate fails auction db = (inl e, db') → db' = db.
Proof.
  unfold settle, atomically.
  pose proof (settle_steps_outcome mate fails auction db) as H.
  destruct (settle_steps mate fails auction db) as [[e|w] db1].
  - split; [|intros ? ? [= _ <-]; reflexivity].
    inversion H; subst.
    + apply settle_unknown. assumption.
    + eapply settle_illegal; eassumption.
    + eapply settle_failed; eassumption.
  - split; [exact H|]. intros ? ? [=].
Qed.

Lemma settle_when_settled mate fails auction db a :
  find_auction auction db = Some a →
  auction_status a = SETTLED →
  settle mate fails auction db = (inr (auction_winner a), db).
Proof.
  intros Ha Hs.
  unfold settle, atomically, settle_steps, tx_bind, tx_read, tx_ret.
  rewrite Ha, Hs. reflexivity.
Qed.

(** C4: [settle] on an auction that is already [SETTLED] changes nothing in
    the store and returns the recorded winner; hence a second [settle] after
    a successful one returns the same winner as the first and leaves the
    store, with its ownership records, exactly as the first left it,
    whichever steps could fail. *)
Theorem settle_idempotent (mate : Z → Z) (fails fails' : SettleStep → bool)
    (auction : Z) (db : Database) :
  (∀ a, find_auction auction db = Some a →
        auction_status a = SETTLED →
        settle mate fails auction db = (inr (auction_winner a), db))
  ∧ (∀ w db',
       settle mate fails auction db = (inr w, db') →
       settle mate fails' auction db' = (inr w, db')
       ∧ flag_ownerships (settle mate fails' auction db').2
         = flag_ownerships db'
       ∧ ∃ a', find_auction auction db' = Some a'
               ∧ auction_status a' = SETTLED ∧ auction_winner a' = w).
Proof.
  split; [intros a; apply settle_when_settled|].
  intros w db' Hrun.
  assert (Hfound : ∃ a', find_auction auction db' = Some a'
                         ∧ auction_status a' = SETTLED
                         ∧ auction_winner a' = w).
  { destruct (settle_cases mate fails auction db) as [Hout _].
    rewrite Hrun in Hout. inversion Hout; subst.
    - eexists. repeat split; eassumption.
    - rewrite find_auction_mark_settled.
      match goal with H : find_auction _ _ = Some _ |- _ => rewrite H end.
      eexists. repeat split.
    - rewrite find_auction_mark_settled.
      change (find_auction auction
                (recompute mate (auction_flag a)
                   (write_ownership (auction_flag a) (bid_bidder b) db)))
        with (find_auction auction db).
      match goal with H : find_auction _ _ = Some _ |- _ => rewrite H end.
      eexists. repeat split. }
  destruct Hfound as (a' & Ha' & Hs' & Hw').
  rewrite (settle_when_settled mate fails' auction db' a' Ha' Hs'), Hw'.
  split; [reflexivity|]. split; [reflexivity|].
  exists a'. repeat split; assumption.
Qed.

Lemma settle_idempotent_witness :
  settle sample_mate no_failure 1 sample_closing_db
  = (inr (Some 2), (settle sample_mate no_failure 1 sample_closing_db).2)
  ∧ settle sample_mate recompute_fails 1
           (settle sample_mate no_failure 1 sample_closing_db).2
    = (inr (Some 2), (settle sample_mate no_failure 1 sample_closing_db).2).
Proof.
  assert (H1 : settle sample_mate no_failure 1 sample_closing_db
               = (inr (Some 2),
                  (settle sample_mate no_failure 1 sample_closing_db).2))
    by (vm_compute; reflexivity).
  split; [exact H1|].
  destruct (settle_idempotent sample_mate no_failure recompute_fails 1
              sample_closing_db) as [_ H].
  destruct (H _ _ H1) as [H2 _]. exact H2.
Defined.

(** C5: when [settle] on an auction in [CLOSING] fails at any of its steps,
    the store is the one the call was given, so the auction is still
    [CLOSING] and not [SETTLED]; and whatever the outcome, either the
    ownership records and the pair flags are both as they were, or the
    ownership of the winner is written and the pair flags are those
    recomputed after that write. *)
Theorem settle_all_or_nothing (mate : Z → Z) (fails : SettleStep → bool)
    (auction : Z) (db : Database) (a : Auction)
    (r : EngineError + option Z) (db' : Database) :
  find_auction auction db = Some a →
  auction_status a = CLOSING →
  settle mate fails auction db = (r, db') →
  (∀ e, r = inl e →
        db' = db
        ∧ auction_status <$> find_auction auction db' = Some CLOSING)
  ∧ ((flag_ownerships db' = flag_ownerships db ∧ flags db' = flags db)
     ∨ ∃ b, highestBid auction db = Some b
            ∧ r = inr (Some (bid_bidder b))
            ∧ flag_ownerships db'
              = flag_ownerships
                  (write_ownership (auction_flag a) (bid_bidder b) db)
            ∧ flags db'
              = flags (recompute mate (auction_flag a)
                         (write_ownership (auction_flag a) (bid_bidder b)
                                          db))).
Proof.
  intros Ha Hs Hrun.
  destruct (settle_cases mate fails auction db) as [Hout Hfail].
  rewrite Hrun in Hout, Hfail.
  split.
  - intros e ->. rewrite (Hfail e db' eq_refl), Ha. simpl.
    rewrite Hs. split; reflexivity.
  - inversion Hout; subst; try congruence.
    + left. rewrite (Hfail e db' eq_refl). split; reflexivity.
    + left. split; reflexivity.
    + right. assert (a0 = a) by congruence. subst a0.
      exists b. repeat split. assumption.
Qed.

Lemma settle_all_or_nothing_witness :
  settle sample_mate recompute_fails 1 sample_closing_db
  = (inl InconsistentPairState, sample_closing_db)
  ∧ auction_status <$> find_auction 1 sample_closing_db = Some CLOSING.
Proof.
  assert (H1 : settle sample_mate recompute_fails 1 sample_closing_db
               = (inl InconsistentPairState, sample_closing_db))
    by (vm_compute; reflexivity).
  split; [exact H1|].
  destruct (settle_all_or_nothing sample_mate recompute_fails 1
              sample_closing_db sample_closing_auction
              (inl InconsistentPairState) sample_closing_db) as [H _].
  - vm_compute; reflexivity.
  - reflexivity.
  - exact H1.
  - destruct (H InconsistentPairState eq_refl) as [_ H2]. exact H2.
Defined.

(** Without [atomically] the same failure leaves the new owner written and
    the pair flags not recomputed. *)
Lemma settle_steps_alone_leave_partial_writes :
  (settle_steps sample_mate recompute_fails 1 sample_closing_db).1
  = inl InconsistentPairState
  ∧ getOwnership 64
      (settle_steps sample_mate recompute_fails 1 sample_closing_db).2
    = Some 2
  ∧ getOwnership 64 sample_closing_db = None.
Proof. vm_compute. repeat split. Qed.

(** ** The ledger and the highest bid *)














(** ** Pair completeness *)

Lemma pair_rule_ownerships mate flag db db' :
  flag_ownerships db' = flag_ownerships db →
  pair_rule mate flag db' = pair_rule mate flag db.
Proof. intros H. unfold pair_rule, getOwnership. rewrite H. reflexivity. Qed.

Lemma pair_invariant_frame mate db db' :
  flags db' = flags db →
  flag_ownerships db' = flag_ownerships db →
  pair_invariant mate db → pair_invariant mate db'.
Proof.
  intros Hf Ho. unfold pair_invariant. rewrite Hf. intros H.
  eapply Forall_impl; [exact H|]. intros f ->. symmetry.
  apply pair_rule_ownerships. exact Ho.
Qed.

Lemma pair_rule_true mate flag db :
  pair_rule mate flag db = true
  ↔ ∃ u, getOwnership flag db = Some u
         ∧ getOwnership (mate flag) db = Some u.
Proof.
  unfold pair_rule.
  destruct (getOwnership flag db) as [u|],
           (getOwnership (mate flag) db) as [v|]; split;
    try discriminate; try (intros (w & H1 & H2); discriminate).
  - intros H. apply bool_decide_eq_true in H. subst v. eauto.
  - intros (w & [= ->] & [= ->]). apply bool_decide_eq_true. reflexivity.
Qed.

Lemma pair_rule_mate mate flag db :
  mate (mate flag) = flag →
  pair_rule mate (mate flag) db = pair_rule mate flag db.
Proof.
  intros H. unfold pair_rule. rewrite H.
  destruct (getOwnership flag db) as [u|],
           (getOwnership (mate flag) db) as [v|]; try reflexivity.
  apply bool_decide_ext. split; congruence.
Qed.

Lemma find_filter_other (g f : Z) (rows : list FlagOwnership) :
  g ≠ f →
  List.find (λ o, bool_decide (ownership_flag o = g))
    (List.filter (λ o, negb (bool_decide (ownership_flag o = f))) rows)
  = List.find (λ o, bool_decide (ownership_flag o = g)) rows.
Proof.
  intros Hne. induction rows as [|o rows IH]; simpl; [reflexivity|].
  destruct (bool_decide (ownership_flag o = f)) eqn:Ef; simpl.
  - apply bool_decide_eq_true in Ef.
    rewrite bool_decide_eq_false_2 by congruence. exact IH.
  - destruct (bool_decide (ownership_flag o = g)); [reflexivity|exact IH].
Qed.

Lemma getOwnership_write (g f u : Z) db :
  getOwnership g (write_ownership f u db)
  = if bool_decide (g = f) then Some u else getOwnership g db.
Proof.
  unfold getOwnership, write_ownership. simpl.
  destruct (bool_decide (g = f)) eqn:E.
  - apply bool_decide_eq_true in E. subst g.
    rewrite bool_decide_eq_true_2 by reflexivity. reflexivity.
  - apply bool_decide_eq_false in E.
    rewrite bool_decide_eq_false_2 by congruence.
    rewrite find_filter_other by exact E. reflexivity.
Qed.

(** Writing the owner of a flag and recomputing its pair keeps every stored
    flag in step with the rule. *)
Lemma pair_invariant_write_recompute mate f u db :
  (∀ g, mate (mate g) = g) →
  pair_invariant mate db →
  pair_invariant mate (recompute mate f (write_ownership f u db)).
Proof.
  intros Hinv H. unfold pair_invariant, recompute. cbv zeta.
  set (db1 := write_ownership f u db).
  set (v := pair_rule mate f db1).
  set (db2 := set_flags db1 _).
  assert (Hr : ∀ k, pair_rule mate k db2 = pair_rule mate k db1)
    by (intros k; reflexivity).
  unfold db2 at 2. cbn [flags set_flags].
  change (flags db1) with (flags db).
  apply Forall_map. unfold pair_invariant in H.
  eapply Forall_impl; [exact H|]. intros g Hg. cbv beta in Hg |- *.
  rewrite Hr.
  destruct (bool_decide (flag_id g = f)) eqn:E1; simpl.
  - apply bool_decide_eq_true in E1. rewrite E1. reflexivity.
  - destruct (bool_decide (flag_id g = mate f)) eqn:E2; simpl.
    + apply bool_decide_eq_true in E2. rewrite E2.
      symmetry. apply pair_rule_mate. apply Hinv.
    + apply bool_decide_eq_false in E1, E2. rewrite Hg.
      unfold pair_rule, db1. rewrite !getOwnership_write.
      rewrite (bool_decide_eq_false_2 (flag_id g = f)) by exact E1.
      rewrite (bool_decide_eq_false_2 (mate (flag_id g) = f)); [reflexivity|].
      intros Hm. apply E2. rewrite <- Hm. symmetry. apply Hinv.
Qed.

(** The synchronisation touches neither the key nor the pair flag of a
    row. *)
Lemma sync_flag_keeps im mm f :
  flag_id (sync_flag im mm f).1 = flag_id f
  ∧ is_pair_complete (sync_flag im mm f).1 = is_pair_complete f.
Proof.
  unfold sync_flag.
  destruct (truthy (im !! flag_id f) && _);
    destruct (truthy (mm !! _) && _); simpl; split; reflexivity.
Qed.

Lemma sync_flags_keeps mate im mm fs c db :
  Forall (λ f, is_pair_complete f = pair_rule mate (flag_id f) db) fs →
  Forall (λ f, is_pair_complete f = pair_rule mate (flag_id f) db)
         (sync_flags im mm fs c).1.
Proof.
  intros H. revert c. induction H as [|f fs Hf _ IH]; intros c; simpl.
  - constructor.
  - pose proof (sync_flag_keeps im mm f) as [Hid Hpc].
    destruct (sync_flag im mm f) as [f' updated]. simpl in Hid, Hpc.
    specialize (IH (if updated then c + 1 else c)).
    destruct (sync_flags im mm fs (if updated then c + 1 else c))
      as [fs' c']. simpl in *.
    constructor; [|exact IH]. rewrite Hid, Hpc. exact Hf.
Qed.

Lemma pair_invariant_step mate reject_self_owned s db :
  (∀ g, mate (mate g) = g) →
  pair_invariant mate db →
  pair_invariant mate (run_step mate reject_self_owned s db).
Proof.
  intros Hinv H. destruct s; simpl.
  - unfold createAuction. destruct (find_flag flag db); simpl; [|exact H].
    eapply pair_invariant_frame; [| |exact H]; reflexivity.
  - eapply pair_invariant_frame; [| |exact H]; reflexivity.
  - unfold placeBid. destruct (find_auction auction db) as [a|]; [|exact H].
    destruct (close_at a <=? now); [exact H|].
    destruct (negb _); [exact H|].
    destruct (amount <=? floor_of a db); [exact H|].
    destruct (reject_self_owned && _); [exact H|].
    eapply pair_invariant_frame; [| |exact H]; reflexivity.
  - destruct (settle_cases mate fails auction db) as [Hout Hfail].
    destruct (settle mate fails auction db) as [r db'] eqn:E. simpl.
    inversion Hout; subst; try exact H.
    + rewrite (Hfail e db' eq_refl). exact H.
    + eapply pair_invariant_frame;
        [| |apply (pair_invariant_write_recompute mate (auction_flag a)
                     (bid_bidder b) db Hinv H)]; reflexivity.
  - unfold cancelAuction. destruct (find_auction auction db) as [a|];
      [|exact H].
    destruct (bool_decide _); [exact H|].
    eapply pair_invariant_frame; [| |exact H]; reflexivity.
  - unfold recordInterest. destruct (existsb _ _); [exact H|].
    eapply pair_invariant_frame; [| |exact H]; reflexivity.
  - unfold pair_invariant. simpl. constructor.
  - unfold sync_ipfs_from_pinata.
    destruct (negb _); [exact H|].
    destruct (bool_decide _); [exact H|].
    destruct (build_maps _) as [im mm].
    pose proof (sync_flags_keeps mate im mm (flags db) 0 db H) as Hk.
    destruct (sync_flags im mm (flags db) 0) as [fs' c']. simpl in *.
    exact Hk.
Qed.

Lemma pair_invariant_reachable mate reject_self_owned db :
  (∀ g, mate (mate g) = g) →
  reachable mate reject_self_owned db →
  pair_invariant mate db.
Proof.
  intros Hinv Hr. induction Hr as [db [Ho Hf]|db s _ IH].
  - unfold pair_invariant. eapply Forall_impl; [exact Hf|].
    intros f ->. unfold pair_rule, getOwnership. rewrite Ho. reflexivity.
  - apply pair_invariant_step; assumption.
Qed.

(** C1: in every store reached from a pristine catalog by the operations of
    the core, the reset and the synchronisation, pair-mates being each
    other's mate, [is_pair_complete] of a flag is true exactly when the flag
    and its mate both have an owner and the two owners are one user; and
    [completed_pairs] of the admin statistics is the number of flags for
    which that holds. *)
Theorem pair_complete_iff_same_owner (mate : Z → Z)
    (reject_self_owned : bool) (db : Database) :
  (∀ g, mate (mate g) = g) →
  reachable mate reject_self_owned db →
  (∀ f, f ∈ flags db →
        is_pair_complete f = true
        ↔ ∃ u, getOwnership (flag_id f) db = Some u
               ∧ getOwnership (mate (flag_id f)) db = Some u)
  ∧ ∃ s, response (get_admin_stats db) = Return (StatsBody s)
         ∧ completed_pairs s
           = count_where (λ f, pair_rule mate (flag_id f) db) (flags db).
Proof.
  intros Hinv Hr.
  pose proof (pair_invariant_reachable mate reject_self_owned db Hinv Hr) as H.
  unfold pair_invariant in H. rewrite Forall_forall in H.
  split.
  - intros f Hf. rewrite (H f Hf). apply pair_rule_true.
  - eexists. split; [reflexivity|]. simpl.
    apply count_where_ext. intros f Hf. rewrite (H f Hf).
    destruct (pair_rule mate (flag_id f) db); reflexivity.
Qed.

Lemma reachable_run_steps mate reject_self_owned steps db :
  reachable mate reject_self_owned db →
  reachable mate reject_self_owned
            (run_steps mate reject_self_owned steps db).
Proof.
  revert db. induction steps as [|s steps IH]; intros db H; simpl.
  - exact H.
  - apply IH. apply reachable_step. exact H.
Qed.

Lemma sample_mate_involutive (g : Z) : sample_mate (sample_mate g) = g.
Proof.
  unfold sample_mate.
  rewrite Z.lxor_assoc, Z.lxor_nilpotent, Z.lxor_0_r. reflexivity.
Qed.

Lemma pair_complete_iff_same_owner_witness :
  (getPairStatus 64 sample_settled_db = true
   ∧ getPairStatus 65 sample_settled_db = true
   ∧ getOwnership 64 sample_settled_db = Some 2
   ∧ getOwnership 65 sample_settled_db = Some 2)
  ∧ ∃ s, response (get_admin_stats sample_settled_db) = Return (StatsBody s)
         ∧ completed_pairs s
           = count_where (λ f, pair_rule sample_mate (flag_id f)
                                         sample_settled_db)
                         (flags sample_settled_db).
Proof.
  split; [vm_compute; repeat split|].
  destruct (pair_complete_iff_same_owner sample_mate false sample_settled_db)
    as [_ H].
  - exact sample_mate_involutive.
  - apply reachable_run_steps. apply reachable_pristine.
    split; [reflexivity|]. repeat constructor.
  - exact H.
Defined.

(** ** The names the synchronisation accepts *)

Lemma span_spec p s :
  s = ((span p s).1 ++ (span p s).2)%string
  ∧ all_chars p (span p s).1 = true
  ∧ starts_outside p (span p s).2.
Proof.
  induction s as [|c s IH]; simpl; [repeat split|].
  destruct (p c) eqn:E.
  - destruct (span p s) as [taken after]. simpl in *.
    destruct IH as (IH1 & IH2 & IH3). rewrite E, IH2.
    repeat split; [rewrite IH1 at 1; reflexivity|exact IH3].
  - simpl. repeat split. exact E.
Qed.

Lemma span_app p a b :
  all_chars p a = true → starts_outside p b → span p (a ++ b) = (a, b).
Proof.
  intros Ha Hb. induction a as [|c a IH]; simpl in *.
  - destruct b as [|d b]; simpl in *; [reflexivity|]. rewrite Hb. reflexivity.
  - apply andb_true_iff in Ha as [Hc Ha]. rewrite Hc, (IH Ha). reflexivity.
Qed.

Lemma strip_prefix_spec lit s r :
  strip_prefix lit s = Some r ↔ s = (lit ++ r)%string.
Proof.
  revert s. induction lit as [|c lit IH]; intros s; simpl.
  - split; [intros [= ->]; reflexivity|intros ->; reflexivity].
  - destruct s as [|d s]; [split; discriminate|].
    destruct (bool_decide (c = d)) eqn:E.
    + apply bool_decide_eq_true in E. subst d. rewrite IH.
      split; [intros ->; reflexivity|intros [= ->]; reflexivity].
    + apply bool_decide_eq_false in E.
      split; [discriminate|intros [= -> _]; contradiction].
Qed.

Lemma literal_then_end_spec lit rest :
  literal_then_end lit rest = true
  ↔ rest = (lit ++ "")%string ∨ rest = (lit ++ LF)%string.
Proof.
  unfold literal_then_end.
  assert (E : (lit ++ "")%string = lit).
  { induction lit as [|c lit IH]; [reflexivity|].
    change (String c (lit ++ "")%string = String c lit). f_equal. exact IH. }
  rewrite E, orb_true_iff, !bool_decide_eq_true. reflexivity.
Qed.

Lemma empty_string_decide (s : string) :
  bool_decide (s = "") = false ↔ s ≠ "".
Proof.
  split; [apply bool_decide_eq_false|apply bool_decide_eq_false_2].
Qed.

(** What [match_image] accepts: the shape of an image name, followed by
    nothing or by one line feed. *)
Lemma match_image_accepts name digits :
  match_image name = Some digits
  ↔ image_name_shape "" name digits ∨ image_name_shape LF name digits.
Proof.
  split.
  - unfold match_image.
    destruct name as [|a [|b [|c rest]]]; try discriminate.
    destruct (is_upper a && is_upper b && is_upper c) eqn:Eu;
      [|discriminate].
    apply andb_true_iff in Eu as [Eu Ec].
    apply andb_true_iff in Eu as [Ea Eb].
    destruct (strip_prefix "_" rest) as [r1|] eqn:E1; [|discriminate].
    apply strip_prefix_spec in E1. subst rest.
    pose proof (span_spec is_lower r1) as (Hs1 & Hl & _).
    destruct (span is_lower r1) as [municipality r2]. simpl in Hs1, Hl.
    destruct (bool_decide (municipality = "")) eqn:Em; [discriminate|].
    apply empty_string_decide in Em.
    destruct (strip_prefix "_" r2) as [r3|] eqn:E2; [|discriminate].
    apply strip_prefix_spec in E2. subst r2.
    pose proof (span_spec is_digit r3) as (Hs2 & Hd & _).
    destruct (span is_digit r3) as [ds r4]. simpl in Hs2, Hd.
    destruct (bool_decide (ds = "")) eqn:Ed; [discriminate|].
    apply empty_string_decide in Ed.
    destruct (literal_then_end ".png" r4) eqn:Ee; [|discriminate].
    apply literal_then_end_spec in Ee.
    intros [= <-]. subst r1 r3.
    destruct Ee as [->| ->]; [left|right];
      exists a, b, c, municipality; repeat split; assumption.
  - intros [H|H];
      destruct H as (a & b & c & municipality & Ea & Eb & Ec & Em & Hl
                     & Ed & Hd & ->);
      unfold match_image; rewrite Ea, Eb, Ec; simpl andb; cbv iota;
      (rewrite (proj2 (strip_prefix_spec "_" _ _) eq_refl));
      (rewrite span_app by (first [exact Hl|reflexivity]));
      (rewrite (proj2 (empty_string_decide _) Em));
      (rewrite (proj2 (strip_prefix_spec "_" _ _) eq_refl));
      (rewrite span_app by (first [exact Hd|reflexivity]));
      (rewrite (proj2 (empty_string_decide _) Ed));
      (rewrite (proj2 (literal_then_end_spec ".png" _)));
      first [reflexivity | left; reflexivity | right; reflexivity].
Qed.

(** What [match_metadata] accepts. *)
Lemma match_metadata_accepts name digits :
  match_metadata name = Some digits
  ↔ metadata_name_shape "" name digits ∨ metadata_name_shape LF name digits.
Proof.
  split.
  - unfold match_metadata.
    destruct (strip_prefix "flag_" name) as [r1|] eqn:E1; [|discriminate].
    apply strip_prefix_spec in E1. subst name.
    pose proof (span_spec is_digit r1) as (Hs & Hd & _).
    destruct (span is_digit r1) as [ds r2]. simpl in Hs, Hd.
    destruct (bool_decide (ds = "")) eqn:Ed; [discriminate|].
    apply empty_string_decide in Ed.
    destruct (literal_then_end "_metadata.json" r2) eqn:Ee; [|discriminate].
    apply literal_then_end_spec in Ee.
    intros [= <-]. subst r1.
    destruct Ee as [->| ->]; [left|right]; repeat split; assumption.
  - intros [H|H]; destruct H as (Ed & Hd & ->);
      unfold match_metadata;
      (rewrite (proj2 (strip_prefix_spec "flag_" _ _) eq_refl));
      (rewrite span_app by (first [exact Hd|reflexivity]));
      (rewrite (proj2 (empty_string_decide _) Ed));
      (rewrite (proj2 (literal_then_end_spec "_metadata.json" _)));
      first [reflexivity | left; reflexivity | right; reflexivity].
Qed.

(** ** The synchronisation *)

Lemma scan_pin_sources maps pin k h :
  ((scan_pin maps pin).1 !! k = Some h →
     maps.1 !! k = Some h ∨ image_source [pin] k h)
  ∧ ((scan_pin maps pin).2 !! k = Some h →
       maps.2 !! k = Some h ∨ metadata_source [pin] k h).
Proof.
  destruct maps as [im mm]. unfold scan_pin.
  destruct (pin_name pin) as [name|] eqn:En; [|simpl; tauto].
  destruct (ipfs_pin_hash pin) as [hash|] eqn:Eh; [|simpl; tauto].
  destruct (bool_decide (name = "") || bool_decide (hash = "")) eqn:Ee;
    [simpl; tauto|].
  apply orb_false_iff in Ee as [_ Ehash].
  apply bool_decide_eq_false in Ehash.
  destruct (match_image name) as [g|] eqn:Ei; simpl.
  - split; [|tauto]. intros H.
    destruct (decide (int g = k)) as [<-|Hne].
    + rewrite lookup_insert_eq in H. injection H as <-.
      right. exists pin, name, g. repeat split; try assumption. left.
    + rewrite lookup_insert_ne in H by exact Hne. left. exact H.
  - destruct (match_metadata name) as [g|] eqn:Em; simpl; [|tauto].
    split; [tauto|]. intros H.
    destruct (decide (int g = k)) as [<-|Hne].
    + rewrite lookup_insert_eq in H. injection H as <-.
      right. exists pin, name, g. repeat split; try assumption. left.
    + rewrite lookup_insert_ne in H by exact Hne. left. exact H.
Qed.

Lemma image_source_mono rows rows' k h :
  rows ⊆ rows' → image_source rows k h → image_source rows' k h.
Proof.
  intros Hsub (pin & name & g & Hin & H). exists pin, name, g.
  split; [apply Hsub; exact Hin|exact H].
Qed.

Lemma metadata_source_mono rows rows' k h :
  rows ⊆ rows' → metadata_source rows k h → metadata_source rows' k h.
Proof.
  intros Hsub (pin & name & g & Hin & H). exists pin, name, g.
  split; [apply Hsub; exact Hin|exact H].
Qed.

Lemma fold_scan_pin_sources rows maps k h :
  ((fold_left scan_pin rows maps).1 !! k = Some h →
     maps.1 !! k = Some h ∨ image_source rows k h)
  ∧ ((fold_left scan_pin rows maps).2 !! k = Some h →
       maps.2 !! k = Some h ∨ metadata_source rows k h).
Proof.
  revert maps. induction rows as [|pin rows IH]; intros maps; simpl.
  - tauto.
  - destruct (IH (scan_pin maps pin)) as [IH1 IH2].
    destruct (scan_pin_sources maps pin k h) as [S1 S2].
    split; intros H.
    + destruct (IH1 H) as [H'|H'].
      * destruct (S1 H') as [H''|H'']; [left; exact H''|right].
        eapply image_source_mono; [|exact H''].
        intros x Hx. apply list_elem_of_singleton in Hx as ->. left.
      * right. eapply image_source_mono; [|exact H'].
        intros x Hx. right. exact Hx.
    + destruct (IH2 H) as [H'|H'].
      * destruct (S2 H') as [H''|H'']; [left; exact H''|right].
        eapply metadata_source_mono; [|exact H''].
        intros x Hx. apply list_elem_of_singleton in Hx as ->. left.
      * right. eapply metadata_source_mono; [|exact H'].
        intros x Hx. right. exact Hx.
Qed.

(** Every entry of the two dictionaries comes from a pin whose name the
    pattern accepted and whose hash is not empty. *)
Lemma build_maps_sources rows k h :
  ((build_maps rows).1 !! k = Some h → image_source rows k h)
  ∧ ((build_maps rows).2 !! k = Some h → metadata_source rows k h).
Proof.
  unfold build_maps.
  destruct (fold_scan_pin_sources rows (∅, ∅) k h) as [H1 H2].
  split; intros H; [destruct (H1 H) as [H'|H']|destruct (H2 H) as [H'|H']];
    try exact H'; simpl in H'; rewrite lookup_empty in H'; discriminate.
Qed.

(** One column under the loop: it is overwritten when a hash is pinned for
    the flag and differs from the stored one. *)
Lemma overwrite_cases (stored pinned : option string) :
  let u := truthy pinned && bool_decide (stored ≠ pinned) in
  let new := if u then pinned else stored in
  (u = true ↔ new ≠ stored)
  ∧ (new ≠ stored → pinned = new ∧ truthy new = true)
  ∧ (pinned = None ∨ pinned = stored → new = stored).
Proof.
  cbv zeta.
  destruct (truthy pinned) eqn:T;
    destruct (bool_decide (stored ≠ pinned)) eqn:D; simpl.
  - apply bool_decide_eq_true in D.
    split; [split; [intros _ H; apply D; symmetry; exact H|reflexivity]|].
    split; [intros _; split; [reflexivity|exact T]|].
    intros [->| ->]; [discriminate|reflexivity].
  - split; [split; [discriminate|intros H; contradiction]|].
    split; [intros H; contradiction|reflexivity].
  - split; [split; [discriminate|intros H; contradiction]|].
    split; [intros H; contradiction|reflexivity].
  - split; [split; [discriminate|intros H; contradiction]|].
    split; [intros H; contradiction|reflexivity].
Qed.

Lemma sync_flag_unfold im mm f :
  sync_flag im mm f
  = (let ui := truthy (im !! flag_id f)
               && bool_decide (image_ipfs_hash f ≠ im !! flag_id f) in
     let um := truthy (mm !! flag_id f)
               && bool_decide (metadata_ipfs_hash f ≠ mm !! flag_id f) in
     ({| flag_id := flag_id f;
         flag_municipality := flag_municipality f;
         is_pair_complete := is_pair_complete f;
         image_ipfs_hash :=
           if ui then im !! flag_id f else image_ipfs_hash f;
         metadata_ipfs_hash :=
           if um then mm !! flag_id f else metadata_ipfs_hash f |},
      ui || um)).
Proof.
  unfold sync_flag. destruct f as [id mun pc ih mh]. simpl.
  destruct (truthy (im !! id) && bool_decide (ih ≠ im !! id)); simpl;
    destruct (truthy (mm !! id) && bool_decide (mh ≠ mm !! id)); reflexivity.
Qed.

(** One flag under the loop: which hashes change, and when [updated] is
    set. *)
Lemma sync_flag_spec im mm f :
  let f' := (sync_flag im mm f).1 in
  flag_id f' = flag_id f
  ∧ flag_municipality f' = flag_municipality f
  ∧ is_pair_complete f' = is_pair_complete f
  ∧ (image_ipfs_hash f' ≠ image_ipfs_hash f →
       im !! flag_id f = image_ipfs_hash f'
       ∧ truthy (image_ipfs_hash f') = true)
  ∧ (metadata_ipfs_hash f' ≠ metadata_ipfs_hash f →
       mm !! flag_id f = metadata_ipfs_hash f'
       ∧ truthy (metadata_ipfs_hash f') = true)
  ∧ (im !! flag_id f = None ∨ im !! flag_id f = image_ipfs_hash f →
       image_ipfs_hash f' = image_ipfs_hash f)
  ∧ (mm !! flag_id f = None ∨ mm !! flag_id f = metadata_ipfs_hash f →
       metadata_ipfs_hash f' = metadata_ipfs_hash f)
  ∧ ((sync_flag im mm f).2 = true
     ↔ image_ipfs_hash f' ≠ image_ipfs_hash f
       ∨ metadata_ipfs_hash f' ≠ metadata_ipfs_hash f).
Proof.
  rewrite sync_flag_unfold. cbv zeta. cbn [fst snd flag_id flag_municipality
    is_pair_complete image_ipfs_hash metadata_ipfs_hash].
  destruct (overwrite_cases (image_ipfs_hash f) (im !! flag_id f))
    as (I1 & I2 & I3).
  destruct (overwrite_cases (metadata_ipfs_hash f) (mm !! flag_id f))
    as (M1 & M2 & M3).
  cbv zeta in I1, I2, I3, M1, M2, M3.
  repeat split; try assumption; try (apply I2; assumption);
    try (apply M2; assumption).
  - intros H. apply orb_true_iff in H as [H|H];
      [left; apply I1; exact H|right; apply M1; exact H].
  - intros [H|H]; apply orb_true_iff;
      [left; apply I1; exact H|right; apply M1; exact H].
Qed.

Lemma sync_flags_spec im mm fs c :
  (sync_flags im mm fs c).1 = map (λ f, (sync_flag im mm f).1) fs
  ∧ (sync_flags im mm fs c).2
    = c + count_where (λ f, (sync_flag im mm f).2) fs.
Proof.
  revert c. induction fs as [|f fs IH]; intros c; simpl.
  - split; [reflexivity|]. unfold count_where, count. simpl. lia.
  - destruct (sync_flag im mm f) as [f' updated] eqn:E.
    specialize (IH (if updated then c + 1 else c)).
    destruct (sync_flags im mm fs (if updated then c + 1 else c))
      as [fs' c'].
    simpl in *. destruct IH as [-> ->]. split; [reflexivity|].
    unfold count_where, count. simpl. rewrite E. simpl.
    destruct updated; simpl length; lia.
Qed.

Lemma flag_changed_iff (f f' : Flag) :
  flag_id f' = flag_id f →
  flag_municipality f' = flag_municipality f →
  is_pair_complete f' = is_pair_complete f →
  f' ≠ f
  ↔ image_ipfs_hash f' ≠ image_ipfs_hash f
    ∨ metadata_ipfs_hash f' ≠ metadata_ipfs_hash f.
Proof.
  destruct f as [i m p ih mh], f' as [i' m' p' ih' mh']. simpl.
  intros -> -> ->. split.
  - intros H.
    destruct (decide (ih' = ih)) as [->|Hi]; [|left; exact Hi].
    destruct (decide (mh' = mh)) as [->|Hm]; [|right; exact Hm].
    exfalso. apply H. reflexivity.
  - intros [H|H] [=]; contradiction.
Qed.

(** X2: a successful synchronisation, flag by flag: a hash column changes only
    to the hash of a pin whose name the pattern accepted for that flag's
    key; a flag for which nothing is pinned under its key, or whose stored
    hash is the pinned one, keeps that column; and [updated_count] is the
    number of flags that are no longer what they were. *)
Theorem sync_ipfs_flag_by_flag (settings : Settings) (reply : PinataReply)
    (db : Database) :
  truthy (pinata_jwt settings) = true →
  reply_status_code reply = 200 →
  let out := sync_ipfs_from_pinata settings reply db in
  let im := (build_maps (reply_rows reply)).1 in
  let mm := (build_maps (reply_rows reply)).2 in
  flags (store out) = map (λ f, (sync_flag im mm f).1) (flags db)
  ∧ Forall (λ f,
       let f' := (sync_flag im mm f).1 in
       flag_id f' = flag_id f
       ∧ (image_ipfs_hash f' ≠ image_ipfs_hash f →
            ∃ h, image_ipfs_hash f' = Some h
                 ∧ image_source (reply_rows reply) (flag_id f) h)
       ∧ (metadata_ipfs_hash f' ≠ metadata_ipfs_hash f →
            ∃ h, metadata_ipfs_hash f' = Some h
                 ∧ metadata_source (reply_rows reply) (flag_id f) h)
       ∧ (im !! flag_id f = None ∨ im !! flag_id f = image_ipfs_hash f →
            image_ipfs_hash f' = image_ipfs_hash f)
       ∧ (mm !! flag_id f = None ∨ mm !! flag_id f = metadata_ipfs_hash f →
            metadata_ipfs_hash f' = metadata_ipfs_hash f))
      (flags db)
  ∧ response out
    = Return (SyncBody
        {| updated_count :=
             count_where (λ f, bool_decide ((sync_flag im mm f).1 ≠ f))
                         (flags db);
           found_images := len im;
           found_metadata := len mm |}).
Proof.
  intros Hjwt Hok. cbv zeta. unfold sync_ipfs_from_pinata.
  rewrite Hjwt, Hok. simpl negb. cbv iota.
  rewrite bool_decide_eq_false_2 by (intros H; apply H; reflexivity).
  pose proof (build_maps_sources (reply_rows reply)) as Hsrc.
  destruct (build_maps (reply_rows reply)) as [im mm]. simpl in Hsrc |- *.
  destruct (sync_flags_spec im mm (flags db) 0) as [Hfs Hc].
  destruct (sync_flags im mm (flags db) 0) as [fs' c']. simpl in Hfs, Hc.
  subst fs' c'. simpl.
  split; [reflexivity|]. split.
  - apply Forall_forall. intros f _.
    destruct (sync_flag_spec im mm f)
      as (Hid & _ & _ & Hi & Hm & Hki & Hkm & _). cbv zeta in *.
    repeat split; try assumption.
    + intros H. destruct (Hi H) as [E _].
      destruct (image_ipfs_hash (sync_flag im mm f).1) as [h|] eqn:Eh;
        [|contradiction H; destruct (Hi H) as [_ T]; discriminate T].
      exists h. split; [reflexivity|]. apply Hsrc. exact E.
    + intros H. destruct (Hm H) as [E _].
      destruct (metadata_ipfs_hash (sync_flag im mm f).1) as [h|] eqn:Eh;
        [|contradiction H; destruct (Hm H) as [_ T]; discriminate T].
      exists h. split; [reflexivity|]. apply Hsrc. exact E.
  - do 3 f_equal. rewrite Z.add_0_l.
    apply count_where_ext. intros f _.
    destruct (sync_flag_spec im mm f)
      as (Hid & Hmu & Hpc & _ & _ & _ & _ & Hu). cbv zeta in *.
    pose proof (flag_changed_iff f _ Hid Hmu Hpc) as Hch.
    destruct ((sync_flag im mm f).2) eqn:E.
    + symmetry. apply bool_decide_eq_true. apply Hch. apply Hu. reflexivity.
    + symmetry. apply bool_decide_eq_false. intros H.
      apply Hch in H. apply Hu in H. discriminate.
Qed.

Lemma sync_ipfs_flag_by_flag_witness :
  flags (store (sync_ipfs_from_pinata sample_settings sample_reply sample_db))
  = [ set_image_ipfs_hash (sample_flag 64) (Some "QmImage64");
      set_metadata_ipfs_hash (sample_flag 65) (Some "QmMeta65") ]
  ∧ response (sync_ipfs_from_pinata sample_settings sample_reply sample_db)
    = Return (SyncBody {| updated_count := 2; found_images := 1;
                          found_metadata := 1 |}).
Proof.
  destruct (sync_ipfs_flag_by_flag sample_settings sample_reply sample_db)
    as (H1 & _ & H3).
  - reflexivity.
  - reflexivity.
  - split; [rewrite H1|rewrite H3]; vm_compute; reflexivity.
Defined.

(** X1: the names that the two patterns accept are those of the documented
    shapes, followed by nothing or by a single line feed. *)
Theorem pin_names_accepted (name digits : string) :
  (match_image name = Some digits
   ↔ image_name_shape "" name digits ∨ image_name_shape LF name digits)
  ∧ (match_metadata name = Some digits
     ↔ metadata_name_shape "" name digits
       ∨ metadata_name_shape LF name digits).
Proof.
  split; [apply match_image_accepts|apply match_metadata_accepts].
Qed.

Lemma last_char_cons c s d :
  last_char s = Some d → last_char (String c s) = Some d.
Proof. intros H. simpl. rewrite H. reflexivity. Qed.

Lemma last_char_app s t d :
  last_char t = Some d → last_char (s ++ t)%string = Some d.
Proof.
  intros H. induction s as [|c s IH]; [exact H|].
  change (last_char (String c (s ++ t)%string) = Some d).
  apply last_char_cons. exact IH.
Qed.

(** C9, at the failing input: the name of the only pin is not of the shape
    of an image name, since it ends in a line feed and not in [.png]; the
    synchronisation nevertheless overwrites the image hash of flag 64 from
    it and reports one updated flag. *)
Theorem sync_ipfs_accepts_trailing_line_feed :
  (∀ digits, ¬ image_name_shape "" line_feed_name digits)
  ∧ image_ipfs_hash <$> find_flag 64 sample_db = Some None
  ∧ image_ipfs_hash <$>
      find_flag 64 (store (sync_ipfs_from_pinata sample_settings
                                                 line_feed_reply sample_db))
    = Some (Some "QmImage64")
  ∧ response (sync_ipfs_from_pinata sample_settings line_feed_reply sample_db)
    = Return (SyncBody {| updated_count := 1; found_images := 1;
                          found_metadata := 0 |}).
Proof.
  split; [|vm_compute; repeat split].
  intros digits (a & b & c & municipality & _ & _ & _ & _ & _ & _ & _ & H).
  apply (f_equal last_char) in H.
  assert (Hg : last_char
                 (String a (String b (String c
                    ("_" ++ municipality ++ "_" ++ digits ++ ".png" ++ "")))%string)
               = Some "g"%char).
  { do 4 apply last_char_cons. apply last_char_app.
    apply last_char_cons. apply last_char_app. reflexivity. }
  rewrite Hg in H. vm_compute in H. discriminate H.
Qed.

(** * Further properties of the router and of the entry point *)

(** ** [main.py]: the CORS configuration *)

(** [needle in s] on strings. *)
Fixpoint str_contains (needle s : string) : bool :=
  match strip_prefix needle s with
  | Some _ => true
  | None =>
      match s with
      | String _ rest => str_contains needle rest
      | EmptyString => false
      end
  end.

(** The keyword arguments that [app.add_middleware(CORSMiddleware, ...)]
    receives. *)
Record CORSMiddleware := {
  allow_origins : list string;
  allow_credentials : bool;
  allow_methods : list string;
  allow_headers : list string
}.

(** The module-level configuration of CORS; [cors_origins] is
    [settings.cors_origins_list]. *)
Definition add_cors_middleware (cors_origins : list string) : CORSMiddleware :=
  let allow_all_origins := existsb (str_contains "*") cors_origins in
  {| allow_origins := if allow_all_origins then ["*"] else cors_origins;
     allow_credentials := negb allow_all_origins;
     allow_methods := ["*"];
     allow_headers := ["*"] |}.

(** ** [sync_ipfs_from_pinata]: what one pin puts in a dictionary *)

(** The key and the hash that the loop stores in [image_map] for a pin, if
    it stores any. *)
Definition image_entry (pin : Pin) : option (Z * string) :=
  match pin_name pin, ipfs_pin_hash pin with
  | Some name, Some h =>
      if bool_decide (name = "") || bool_decide (h = "") then None
      else (λ digits, (int digits, h)) <$> match_image name
  | _, _ => None
  end.

(** The same for [metadata_map]; a name that the image pattern accepts never
    reaches the metadata pattern. *)
Definition metadata_entry (pin : Pin) : option (Z * string) :=
  match pin_name pin, ipfs_pin_hash pin with
  | Some name, Some h =>
      if bool_decide (name = "") || bool_decide (h = "") then None
      else match match_image name with
           | Some _ => None
           | None => (λ digits, (int digits, h)) <$> match_metadata name
           end
  | _, _ => None
  end.

(** The hash of the last pin of [rows] whose entry has key [k]. *)
Definition pinned_for (entry : Pin → option (Z * string)) (k : Z)
    (rows : list Pin) : option string :=
  last (omap (λ pin, match entry pin with
                     | Some (k', h) => if bool_decide (k' = k) then Some h
                                       else None
                     | None => None
                     end) rows).

(** A seeding routine for the samples: it installs the sample store. *)
Definition sample_seed_database (_ : Database) : Database := sample_db.

Lemma str_contains_unfold needle s :
  str_contains needle s
  = match strip_prefix needle s with
    | Some _ => true
    | None =>
        match s with
        | String _ rest => str_contains needle rest
        | EmptyString => false
        end
    end.
Proof. destruct s; reflexivity. Qed.

Lemma str_contains_spec needle s :
  str_contains needle s = true
  ↔ ∃ pre post, s = (pre ++ needle ++ post)%string.
Proof.
  split.
  - induction s as [|c s IH]; rewrite str_contains_unfold.
    + destruct (strip_prefix needle "") as [r|] eqn:E; [|discriminate].
      intros _. apply strip_prefix_spec in E. exists "", r. exact E.
    + destruct (strip_prefix needle (String c s)) as [r|] eqn:E.
      * intros _. apply strip_prefix_spec in E. exists "", r. exact E.
      * intros H. destruct (IH H) as (pre & post & ->).
        exists (String c pre), post. reflexivity.
  - intros (pre & post & ->). induction pre as [|c pre IH].
    + change ("" ++ needle ++ post)%string with (needle ++ post)%string.
      rewrite str_contains_unfold.
      rewrite (proj2 (strip_prefix_spec needle _ _) eq_refl). reflexivity.
    + change (String c pre ++ needle ++ post)%string
        with (String c (pre ++ needle ++ post)%string).
      rewrite str_contains_unfold, IH.
      destruct (strip_prefix needle _); reflexivity.
Qed.

(** X3: the CORS configuration allows credentials exactly when no
    configured origin contains an asterisk; it then passes the configured
    origins on unchanged, and otherwise replaces them all by the single
    origin [*]; so credentials are never allowed together with an origin
    that contains an asterisk. *)
Theorem cors_credentials_exclude_wildcard (cors_origins : list string) :
  let cfg := add_cors_middleware cors_origins in
  (allow_credentials cfg = true
   ↔ ∀ o, o ∈ cors_origins → ∀ pre post, o ≠ (pre ++ "*" ++ post)%string)
  ∧ (allow_credentials cfg = true → allow_origins cfg = cors_origins)
  ∧ (allow_credentials cfg = false → allow_origins cfg = ["*"])
  ∧ (allow_credentials cfg = true →
       ∀ o, o ∈ allow_origins cfg →
            ∀ pre post, o ≠ (pre ++ "*" ++ post)%string).
Proof.
  cbv zeta. unfold add_cors_middleware. simpl.
  assert (Hiff : existsb (str_contains "*") cors_origins = false
                 ↔ ∀ o, o ∈ cors_origins →
                        ∀ pre post, o ≠ (pre ++ "*" ++ post)%string).
  { split.
    - intros H o Ho pre post ->.
      assert (Ht : existsb (str_contains "*") cors_origins = true).
      { apply existsb_exists. eexists. split.
        - apply list_elem_of_In. exact Ho.
        - apply str_contains_spec. eauto. }
      congruence.
    - intros H. destruct (existsb _ cors_origins) eqn:E; [|reflexivity].
      apply existsb_exists in E as (o & Ho & Hc).
      apply list_elem_of_In in Ho. apply str_contains_spec in Hc
        as (pre & post & ->).
      exfalso. exact (H _ Ho pre post eq_refl). }
  destruct (existsb (str_contains "*") cors_origins) eqn:E; simpl.
  - split; [split; [discriminate|]|].
    + intros H. apply Hiff in H. discriminate.
    + repeat split; try discriminate.
  - split; [split; [intros _; apply Hiff; reflexivity|reflexivity]|].
    repeat split; try discriminate.
    intros _. apply Hiff. reflexivity.
Qed.

(** ** [sync_ipfs_from_pinata]: the dictionaries *)

Lemma scan_pin_entries maps pin :
  scan_pin maps pin
  = (match image_entry pin with
     | Some (k, h) => <[k := h]> maps.1
     | None => maps.1
     end,
     match metadata_entry pin with
     | Some (k, h) => <[k := h]> maps.2
     | None => maps.2
     end).
Proof.
  destruct maps as [im mm]. unfold scan_pin, image_entry, metadata_entry.
  destruct (pin_name pin) as [name|]; [|reflexivity].
  destruct (ipfs_pin_hash pin) as [h|]; [|reflexivity].
  destruct (bool_decide (name = "") || bool_decide (h = ""));
    [reflexivity|].
  destruct (match_image name) as [g|]; [reflexivity|].
  destruct (match_metadata name) as [g|]; reflexivity.
Qed.

Lemma last_omap_cons {A B} (g : A → option B) (x : A) (l : list A) :
  last (omap g (x :: l))
  = match last (omap g l) with
    | Some y => Some y
    | None => g x
    end.
Proof.
  cbn [omap list_omap]. destruct (g x) as [y|].
  - rewrite last_cons. reflexivity.
  - destruct (last (omap g l)); reflexivity.
Qed.

Lemma insert_entry_lookup (entry : option (Z * string)) (m : gmap Z string)
    (k : Z) :
  match entry with
  | Some (k', h) => <[k' := h]> m
  | None => m
  end !! k
  = match match entry with
          | Some (k', h) => if bool_decide (k' = k) then Some h else None
          | None => None
          end with
    | Some h => Some h
    | None => m !! k
    end.
Proof.
  destruct entry as [[k' h]|]; [|reflexivity].
  destruct (bool_decide (k' = k)) eqn:E.
  - apply bool_decide_eq_true in E. subst k'. apply lookup_insert_eq.
  - apply bool_decide_eq_false in E. apply lookup_insert_ne. exact E.
Qed.

Lemma fold_scan_pin_lookup rows maps k :
  (fold_left scan_pin rows maps).1 !! k
  = match pinned_for image_entry k rows with
    | Some h => Some h
    | None => maps.1 !! k
    end
  ∧ (fold_left scan_pin rows maps).2 !! k
    = match pinned_for metadata_entry k rows with
      | Some h => Some h
      | None => maps.2 !! k
      end.
Proof.
  unfold pinned_for.
  revert maps. induction rows as [|pin rows IH]; intros maps;
    [split; reflexivity|].
  rewrite !last_omap_cons. cbn [fold_left].
  destruct (IH (scan_pin maps pin)) as [IH1 IH2]. rewrite IH1, IH2.
  rewrite scan_pin_entries. cbn [fst snd]. clear IH IH1 IH2.
  split.
  - destruct (last (omap _ rows)); [reflexivity|].
    apply insert_entry_lookup.
  - destruct (last (omap _ rows)); [reflexivity|].
    apply insert_entry_lookup.
Qed.

(** X4: what the two dictionaries hold under a key is the hash of the last
    pin of the reply whose name the image pattern (for [metadata_map]: the
    metadata pattern) accepted with that key and whose name and hash are not
    empty; a later pin for a flag replaces an earlier one, and there is no
    entry when no pin qualifies. *)
Theorem build_maps_last_pin_wins (rows : list Pin) (k : Z) :
  (build_maps rows).1 !! k = pinned_for image_entry k rows
  ∧ (build_maps rows).2 !! k = pinned_for metadata_entry k rows.
Proof.
  unfold build_maps.
  destruct (fold_scan_pin_lookup rows (∅, ∅) k) as [-> ->]. simpl.
  rewrite !lookup_empty.
  split; destruct (pinned_for _ k rows); reflexivity.
Qed.

Lemma int_from_nonneg s acc :
  all_chars is_digit s = true → 0 ≤ acc → 0 ≤ int_from acc s.
Proof.
  revert acc. induction s as [|c s IH]; intros acc Hs Hacc; simpl;
    [exact Hacc|].
  simpl in Hs. apply andb_true_iff in Hs as [Hc Hs].
  apply IH; [exact Hs|]. unfold is_digit in Hc. lia.
Qed.

Lemma scan_pin_sizes maps pin :
  (size (scan_pin maps pin).1 + size (scan_pin maps pin).2
   ≤ S (size maps.1 + size maps.2))%nat.
Proof.
  rewrite scan_pin_entries. cbn [fst snd].
  unfold image_entry, metadata_entry.
  destruct (pin_name pin) as [name|]; [|lia].
  destruct (ipfs_pin_hash pin) as [h|]; [|lia].
  destruct (bool_decide (name = "") || bool_decide (h = "")); [lia|].
  destruct (match_image name) as [g|]; simpl.
  - rewrite map_size_insert. destruct (maps.1 !! int g); simpl; lia.
  - destruct (match_metadata name) as [g|]; simpl; [|lia].
    rewrite map_size_insert. destruct (maps.2 !! int g); simpl; lia.
Qed.

Lemma fold_scan_pin_sizes rows maps :
  (size (fold_left scan_pin rows maps).1 + size (fold_left scan_pin rows maps).2
   ≤ length rows + (size maps.1 + size maps.2))%nat.
Proof.
  revert maps. induction rows as [|pin rows IH]; intros maps; simpl; [lia|].
  specialize (IH (scan_pin maps pin)).
  pose proof (scan_pin_sizes maps pin). lia.
Qed.

(** X5: a pin adds an entry to at most one of the two dictionaries, so the
    numbers of images and of metadata files that the synchronisation
    reports add up to no more than the number of pins in the reply; and
    every key of either dictionary is a non-negative integer, so a flag
    with a negative id is never matched. *)
Theorem build_maps_bounds (rows : list Pin) :
  len (build_maps rows).1 + len (build_maps rows).2 ≤ count rows
  ∧ (∀ k h, (build_maps rows).1 !! k = Some h → 0 ≤ k)
  ∧ (∀ k h, (build_maps rows).2 !! k = Some h → 0 ≤ k).
Proof.
  split.
  - unfold len, count, build_maps.
    pose proof (fold_scan_pin_sizes rows (∅, ∅)) as H. simpl in H.
    rewrite !map_size_empty in H. lia.
  - split; intros k h H.
    + apply build_maps_sources in H
        as (pin & name & g & _ & _ & _ & _ & Hm & <-).
      apply match_image_accepts in Hm.
      destruct Hm as [Hm|Hm];
        destruct Hm as (a & b & c & mu & _ & _ & _ & _ & _ & _ & Hd & _);
        apply int_from_nonneg; first [exact Hd|lia].
    + apply build_maps_sources in H
        as (pin & name & g & _ & _ & _ & _ & Hm & <-).
      apply match_metadata_accepts in Hm.
      destruct Hm as [Hm|Hm]; destruct Hm as (_ & Hd & _);
        apply int_from_nonneg; first [exact Hd|lia].
Qed.

(** ** [sync_ipfs_from_pinata]: the three ways a request ends *)

Lemma sync_ipfs_cases (settings : Settings) (reply : PinataReply)
    (db : Database) :
  let im := (build_maps (reply_rows reply)).1 in
  let mm := (build_maps (reply_rows reply)).2 in
  (truthy (pinata_jwt settings) = false
   ∧ sync_ipfs_from_pinata settings reply db
     = {| response := HTTPException HTTP_400_BAD_REQUEST
                        "Pinata JWT not configured";
          store := db; calls := [] |})
  ∨ (truthy (pinata_jwt settings) = true
     ∧ reply_status_code reply ≠ 200
     ∧ sync_ipfs_from_pinata settings reply db
       = {| response := HTTPException HTTP_502_BAD_GATEWAY
                          ("Failed to fetch from Pinata: " ++ reply_text reply);
            store := db; calls := [CallPinataPinList] |})
  ∨ (truthy (pinata_jwt settings) = true
     ∧ reply_status_code reply = 200
     ∧ sync_ipfs_from_pinata settings reply db
       = {| response := Return (SyncBody
              {| updated_count :=
                   count_where (λ f, (sync_flag im mm f).2) (flags db);
                 found_images := len im;
                 found_metadata := len mm |});
            store := set_flags db (map (λ f, (sync_flag im mm f).1) (flags db));
            calls := [CallPinataPinList] |}).
Proof.
  cbv zeta. unfold sync_ipfs_from_pinata.
  destruct (truthy (pinata_jwt settings)); simpl negb; cbv iota;
    [|left; split; reflexivity].
  right.
  destruct (decide (reply_status_code reply = 200)) as [Hok|Hne].
  - right. rewrite bool_decide_eq_false_2 by (intros H; apply H; exact Hok).
    destruct (build_maps (reply_rows reply)) as [im mm]. simpl.
    destruct (sync_flags_spec im mm (flags db) 0) as [Hfs Hc].
    destruct (sync_flags im mm (flags db) 0) as [fs' c']. simpl in Hfs, Hc.
    subst fs' c'. rewrite Z.add_0_l. repeat split. exact Hok.
  - left. rewrite bool_decide_eq_true_2 by exact Hne. repeat split. exact Hne.
Qed.

Lemma overwrite_again (stored pinned : option string) :
  truthy pinned
  && bool_decide ((if truthy pinned && bool_decide (stored ≠ pinned)
                   then pinned else stored) ≠ pinned)
  = false.
Proof.
  destruct (truthy pinned); [|reflexivity]. simpl.
  destruct (bool_decide (stored ≠ pinned)) eqn:D.
  - apply bool_decide_eq_false_2. intros H. apply H. reflexivity.
  - exact D.
Qed.

Lemma sync_flag_again im mm f :
  sync_flag im mm (sync_flag im mm f).1 = ((sync_flag im mm f).1, false).
Proof.
  rewrite (sync_flag_unfold im mm (sync_flag im mm f).1).
  rewrite (sync_flag_unfold im mm f). cbv zeta.
  cbn [fst flag_id flag_municipality is_pair_complete image_ipfs_hash
       metadata_ipfs_hash].
  rewrite !overwrite_again. reflexivity.
Qed.

Lemma sync_flags_again im mm fs :
  map (λ f, (sync_flag im mm f).1) (map (λ f, (sync_flag im mm f).1) fs)
  = map (λ f, (sync_flag im mm f).1) fs
  ∧ count_where (λ f, (sync_flag im mm f).2)
                (map (λ f, (sync_flag im mm f).1) fs) = 0.
Proof.
  unfold count_where, count.
  induction fs as [|f fs [IH1 IH2]]; simpl; [split; reflexivity|].
  rewrite sync_flag_again. simpl. rewrite IH1. split; [reflexivity|exact IH2].
Qed.

(** X6: the synchronisation is idempotent: a second request with the same
    reply of the service leaves the store exactly as the first left it, and
    when the first succeeded the second reports no updated flag and the same
    numbers of images and metadata files. *)
Theorem sync_ipfs_idempotent (settings : Settings) (reply : PinataReply)
    (db : Database) :
  let once := sync_ipfs_from_pinata settings reply db in
  let twice := sync_ipfs_from_pinata settings reply (store once) in
  store twice = store once
  ∧ (∀ r, response once = Return (SyncBody r) →
          response twice
          = Return (SyncBody {| updated_count := 0;
                                found_images := found_images r;
                                found_metadata := found_metadata r |})).
Proof.
  cbv zeta.
  destruct (sync_ipfs_cases settings reply db)
    as [(Hj & E1)|[(Hj & Hne & E1)|(Hj & Hok & E1)]]; rewrite E1;
    cbn [store response].
  - destruct (sync_ipfs_cases settings reply db)
      as [(_ & E2)|[(Hj' & _)|(Hj' & _)]]; try congruence.
    rewrite E2. split; [reflexivity|]. intros r [=].
  - destruct (sync_ipfs_cases settings reply db)
      as [(Hj' & _)|[(_ & _ & E2)|(_ & Hok & _)]]; try congruence.
    rewrite E2. split; [reflexivity|]. intros r [=].
  - match goal with
    | |- context [sync_ipfs_from_pinata settings reply ?d] =>
        destruct (sync_ipfs_cases settings reply d)
          as [(Hj' & _)|[(_ & Hne & _)|(_ & _ & E2)]]; try congruence
    end.
    rewrite E2. cbn [store response flags set_flags].
    destruct (sync_flags_again (build_maps (reply_rows reply)).1
                (build_maps (reply_rows reply)).2 (flags db)) as [-> ->].
    split; [reflexivity|]. intros r [= <-]. reflexivity.
Qed.

Lemma sync_flag_frame im mm f :
  flag_id (sync_flag im mm f).1 = flag_id f
  ∧ flag_municipality (sync_flag im mm f).1 = flag_municipality f
  ∧ is_pair_complete (sync_flag im mm f).1 = is_pair_complete f
  ∧ (isnot_None (image_ipfs_hash f) = true →
       isnot_None (image_ipfs_hash (sync_flag im mm f).1) = true)
  ∧ (isnot_None (metadata_ipfs_hash f) = true →
       isnot_None (metadata_ipfs_hash (sync_flag im mm f).1) = true).
Proof.
  rewrite sync_flag_unfold. cbv zeta.
  cbn [fst flag_id flag_municipality is_pair_complete image_ipfs_hash
       metadata_ipfs_hash].
  repeat split.
  - destruct (truthy (im !! flag_id f)) eqn:T; simpl; [|tauto].
    destruct (bool_decide _); [|tauto]. intros _.
    destruct (im !! flag_id f); [reflexivity|discriminate T].
  - destruct (truthy (mm !! flag_id f)) eqn:T; simpl; [|tauto].
    destruct (bool_decide _); [|tauto]. intros _.
    destruct (mm !! flag_id f); [reflexivity|discriminate T].
Qed.

(** X7: whatever the outcome, the synchronisation changes nothing but the
    two hash columns of the flags: the nine other tables are as they were,
    and the flags are the same rows in the same order with their ids,
    municipalities and pair flags; when the response is an error the whole
    store is as it was. *)
Theorem sync_ipfs_changes_hash_columns_only (settings : Settings)
    (reply : PinataReply) (db : Database) :
  let out := sync_ipfs_from_pinata settings reply db in
  countries (store out) = countries db
  ∧ regions (store out) = regions db
  ∧ municipalities (store out) = municipalities db
  ∧ users (store out) = users db
  ∧ flag_interests (store out) = flag_interests db
  ∧ flag_ownerships (store out) = flag_ownerships db
  ∧ auctions (store out) = auctions db
  ∧ bids (store out) = bids db
  ∧ user_connections (store out) = user_connections db
  ∧ Forall2 (λ f f', flag_id f' = flag_id f
                     ∧ flag_municipality f' = flag_municipality f
                     ∧ is_pair_complete f' = is_pair_complete f)
            (flags db) (flags (store out))
  ∧ (status_of (response out) ≠ 200 → store out = db).
Proof.
  cbv zeta.
  assert (Hdiag : Forall2 (λ f f', flag_id f' = flag_id f
                     ∧ flag_municipality f' = flag_municipality f
                     ∧ is_pair_complete f' = is_pair_complete f)
                    (flags db) (flags db)).
  { apply Forall_Forall2_diag, Forall_forall. intros f _. repeat split. }
  destruct (sync_ipfs_cases settings reply db)
    as [(_ & ->)|[(_ & _ & ->)|(_ & _ & ->)]]; cbn [store response status_of];
    repeat split; try exact Hdiag.
  - apply Forall2_fmap_r, Forall_Forall2_diag, Forall_forall.
    intros f _. simpl.
    destruct (sync_flag_frame (build_maps (reply_rows reply)).1
                (build_maps (reply_rows reply)).2 f) as (H1 & H2 & H3 & _).
    repeat split; assumption.
  - intros H. exfalso. apply H. reflexivity.
Qed.

Lemma count_where_fmap_mono {A} (p : A → bool) (g : A → A) (rows : list A) :
  (∀ x, p x = true → p (g x) = true) →
  count_where p rows ≤ count_where p (map g rows).
Proof.
  intros H. unfold count_where, count.
  induction rows as [|x rows IH]; simpl; [lia|].
  destruct (p x) eqn:E.
  - rewrite (H x E). simpl length. lia.
  - destruct (p (g x)); simpl length; lia.
Qed.

(** X8: the synchronisation never clears a hash: in the report of
    [ipfs_status] taken after it, the total is the same, the numbers of
    flags with an image hash and with a metadata hash are not smaller, and
    the number pending upload is not greater than in the report taken
    before. *)
Theorem sync_ipfs_status_monotone (settings : Settings) (reply : PinataReply)
    (db : Database) :
  ∃ before after,
    response (ipfs_status db) = Return (IpfsStatusBody before)
    ∧ response (ipfs_status
                  (store (sync_ipfs_from_pinata settings reply db)))
      = Return (IpfsStatusBody after)
    ∧ ipfs_total_flags after = ipfs_total_flags before
    ∧ flags_with_image_hash before ≤ flags_with_image_hash after
    ∧ flags_with_metadata_hash before ≤ flags_with_metadata_hash after
    ∧ flags_pending_upload after ≤ flags_pending_upload before.
Proof.
  do 2 eexists. split; [reflexivity|]. split; [reflexivity|].
  cbn [ipfs_total_flags flags_with_image_hash flags_with_metadata_hash
       flags_pending_upload].
  destruct (sync_ipfs_cases settings reply db)
    as [(_ & ->)|[(_ & _ & ->)|(_ & _ & ->)]]; cbn [store flags set_flags];
    try (repeat split; lia).
  set (im := (build_maps (reply_rows reply)).1).
  set (mm := (build_maps (reply_rows reply)).2).
  pose proof (count_where_fmap_mono
                (λ f, isnot_None (image_ipfs_hash f))
                (λ f, (sync_flag im mm f).1) (flags db)
                (λ f, proj1 (proj2 (proj2 (proj2 (sync_flag_frame im mm f))))))
    as Hi.
  pose proof (count_where_fmap_mono
                (λ f, isnot_None (metadata_ipfs_hash f))
                (λ f, (sync_flag im mm f).1) (flags db)
                (λ f, proj2 (proj2 (proj2 (proj2 (sync_flag_frame im mm f))))))
    as Hm.
  assert (Hlen : count (map (λ f, (sync_flag im mm f).1) (flags db))
                 = count (flags db)).
  { unfold count. rewrite length_map. reflexivity. }
  repeat split; lia.
Qed.

(** ** [get_admin_stats] *)

Lemma count_where_le {A} (p : A → bool) (rows : list A) :
  0 ≤ count_where p rows ≤ count rows.
Proof.
  pose proof (count_where_split p rows).
  pose proof (count_nonneg (List.filter p rows)).
  pose proof (count_nonneg (List.filter (λ x, negb (p x)) rows)).
  unfold count_where in *. lia.
Qed.

Lemma count_where_all {A} (p : A → bool) (rows : list A) :
  count_where p rows = count rows ↔ Forall (λ x, p x = true) rows.
Proof.
  unfold count_where, count. induction rows as [|x rows IH]; simpl.
  - split; [constructor|reflexivity].
  - pose proof (count_where_le p rows) as Hle.
    unfold count_where, count in Hle.
    destruct (p x) eqn:E; simpl length; split; intros H.
    + constructor; [exact E|]. apply IH. lia.
    + apply Forall_cons in H as [_ H]. apply IH in H. lia.
    + lia.
    + apply Forall_cons in H as [H _]. congruence.
Qed.

(** X9: the statistics are read without changing the store or calling
    anything; none of the ten numbers is negative; the active auctions are
    at most the auctions and the completed pairs at most the flags, with
    equality exactly when every auction is [ACTIVE], respectively every flag
    is marked complete. *)
Theorem admin_stats_bounds (db : Database) :
  ∃ s, get_admin_stats db
       = {| response := Return (StatsBody s); store := db; calls := [] |}
       ∧ 0 ≤ total_countries s ∧ 0 ≤ total_regions s
       ∧ 0 ≤ total_municipalities s ∧ 0 ≤ total_flags s ∧ 0 ≤ total_users s
       ∧ 0 ≤ total_interests s ∧ 0 ≤ total_ownerships s
       ∧ 0 ≤ active_auctions s ≤ total_auctions s
       ∧ 0 ≤ completed_pairs s ≤ total_flags s
       ∧ (active_auctions s = total_auctions s
          ↔ Forall (λ a, auction_status a = ACTIVE) (auctions db))
       ∧ (completed_pairs s = total_flags s
          ↔ Forall (λ f, is_pair_complete f = true) (flags db)).
Proof.
  eexists. split; [reflexivity|].
  cbn [total_countries total_regions total_municipalities total_flags
       total_users total_interests total_ownerships total_auctions
       active_auctions completed_pairs].
  repeat (split; [apply count_nonneg|]).
  split; [apply count_where_le|]. split; [apply count_where_le|].
  split; rewrite count_where_all; apply Forall_iff; intros x;
    apply bool_decide_eq_true.
Qed.

(** ** How the routes compose *)

(** X10: after a reset, from whatever store, every number of the
    statistics and of the IPFS status is zero, and a seed request is
    accepted: it calls [seed_database] once, on the empty store, and the
    store becomes the result of that call. *)
Theorem reset_then_seed (settings : Settings)
    (seed_database : Database → Database) (reply : PinataReply)
    (db : Database) :
  let key := Some (admin_api_key settings) in
  let wiped :=
    store (admin_request settings seed_database reply POST_reset key db) in
  response (admin_request settings seed_database reply GET_stats key wiped)
  = Return (StatsBody
      {| total_countries := 0; total_regions := 0; total_municipalities := 0;
         total_flags := 0; total_users := 0; total_interests := 0;
         total_ownerships := 0; total_auctions := 0; active_auctions := 0;
         completed_pairs := 0 |})
  ∧ response (admin_request settings seed_database reply GET_ipfs_status key
                            wiped)
    = Return (IpfsStatusBody
        {| ipfs_total_flags := 0; flags_with_image_hash := 0;
           flags_with_metadata_hash := 0; flags_pending_upload := 0 |})
  ∧ admin_request settings seed_database reply POST_seed key wiped
    = {| response := Return (MessageBody "Demo data seeded successfully");
         store := seed_database empty_database;
         calls := [CallSeedDatabase empty_database] |}.
Proof.
  cbv zeta. rewrite !admin_request_unfold.
  rewrite !bool_decide_eq_true_2 by reflexivity.
  repeat split.
Qed.

(** X11: a seed request on a store without countries is accepted, and if
    the seeding routine leaves at least one country a second seed request
    is refused with 400, changes nothing and seeds nothing. *)
Theorem seed_is_not_repeatable (settings : Settings)
    (seed_database : Database → Database) (reply : PinataReply)
    (db : Database) :
  countries db = [] →
  countries (seed_database db) ≠ [] →
  let key := Some (admin_api_key settings) in
  let first := admin_request settings seed_database reply POST_seed key db in
  first
  = {| response := Return (MessageBody "Demo data seeded successfully");
       store := seed_database db;
       calls := [CallSeedDatabase db] |}
  ∧ admin_request settings seed_database reply POST_seed key (store first)
    = {| response := HTTPException HTTP_400_BAD_REQUEST
                       "Database already has data. Cannot seed.";
         store := seed_database db;
         calls := [] |}.
Proof.
  intros Hempty Hseeded. cbv zeta.
  rewrite !admin_request_unfold, !bool_decide_eq_true_2 by reflexivity.
  cbn [endpoint_of].
  assert (E : seed_demo_data seed_database db
              = {| response :=
                     Return (MessageBody "Demo data seeded successfully");
                   store := seed_database db;
                   calls := [CallSeedDatabase db] |}).
  { unfold seed_demo_data. rewrite Hempty. reflexivity. }
  rewrite E. split; [reflexivity|]. cbn [store].
  apply seed_demo_data_refuses. exact Hseeded.
Qed.

Lemma seed_is_not_repeatable_witness :
  admin_request sample_settings sample_seed_database sample_reply POST_seed
    (Some "secret")
    (store (admin_request sample_settings sample_seed_database sample_reply
                          POST_seed (Some "secret") empty_database))
  = {| response := HTTPException HTTP_400_BAD_REQUEST
                     "Database already has data. Cannot seed.";
       store := sample_db;
       calls := [] |}.
Proof.
  destruct (seed_is_not_repeatable sample_settings sample_seed_database
              sample_reply empty_database) as [_ H].
  - reflexivity.
  - discriminate.
  - exact H.
Defined.

(** X12: over the five protected routes and every request: the two GET
    routes never change the store and call nothing; no route but the reset,
    the seeding and the synchronisation changes the store; and the pinning
    service is called exactly when the request is for the synchronisation,
    carries the configured key and a Pinata JWT is configured, and then it
    is called once. *)
Theorem admin_routes_effects (settings : Settings)
    (seed_database : Database → Database) (reply : PinataReply)
    (route : AdminRoute) (x_admin_key : option string) (db : Database) :
  let out :=
    admin_request settings seed_database reply route x_admin_key db in
  (route = GET_stats ∨ route = GET_ipfs_status →
     store out = db ∧ calls out = [])
  ∧ (store out ≠ db →
       x_admin_key = Some (admin_api_key settings)
       ∧ (route = POST_seed ∨ route = POST_reset
          ∨ route = POST_sync_ipfs_from_pinata))
  ∧ (CallPinataPinList ∈ calls out
     ↔ route = POST_sync_ipfs_from_pinata
       ∧ x_admin_key = Some (admin_api_key settings)
       ∧ truthy (pinata_jwt settings) = true)
  ∧ (CallPinataPinList ∈ calls out →
       calls out = [CallPinataPinList]).
Proof.
  cbv zeta. rewrite admin_request_unfold.
  assert (Hnil : ∀ P : Prop, CallPinataPinList ∈ @nil Call → P)
    by (intros P H; inversion H).
  destruct (decide (x_admin_key = Some (admin_api_key settings))) as [Hk|Hk].
  - rewrite bool_decide_eq_true_2 by exact Hk.
    destruct route; cbn [endpoint_of].
    + unfold get_admin_stats. cbn [store calls].
      split; [intros _; split; reflexivity|].
      split; [intros H; exfalso; apply H; reflexivity|].
      split; [|apply Hnil].
      split; [apply Hnil|intros (H & _); discriminate H].
    + split; [intros [H|H]; discriminate H|].
      split; [intros _; split; [exact Hk|left; reflexivity]|].
      assert (Hno : CallPinataPinList
                      ∈ calls (seed_demo_data seed_database db) → False).
      { unfold seed_demo_data. destruct (0 <? count (countries db));
          cbn [calls]; intros H; [inversion H|].
        apply list_elem_of_singleton in H. discriminate H. }
      split; [|intros H; destruct (Hno H)].
      split; [intros H; destruct (Hno H)|intros (H & _); discriminate H].
    + unfold reset_database. cbn [store calls].
      split; [intros [H|H]; discriminate H|].
      split; [intros _; split; [exact Hk|right; left; reflexivity]|].
      split; [|apply Hnil].
      split; [apply Hnil|intros (H & _); discriminate H].
    + unfold ipfs_status. cbn [store calls].
      split; [intros _; split; reflexivity|].
      split; [intros H; exfalso; apply H; reflexivity|].
      split; [|apply Hnil].
      split; [apply Hnil|intros (H & _); discriminate H].
    + split; [intros [H|H]; discriminate H|].
      split; [intros _; split; [exact Hk|right; right; reflexivity]|].
      destruct (sync_ipfs_cases settings reply db)
        as [(Hj & ->)|[(Hj & _ & ->)|(Hj & _ & ->)]]; cbn [calls].
      * split; [|apply Hnil].
        split; [apply Hnil|intros (_ & _ & H); congruence].
      * split; [|reflexivity].
        split; [intros _; repeat split; assumption|intros _; left].
      * split; [|reflexivity].
        split; [intros _; repeat split; assumption|intros _; left].
  - rewrite bool_decide_eq_false_2 by exact Hk. cbn [store calls].
    split; [intros _; split; reflexivity|].
    split; [intros H; exfalso; apply H; reflexivity|].
    split; [|apply Hnil].
    split; [apply Hnil|intros (_ & H & _); contradiction].
Qed.

(** X13: when the seeding routine always leaves at least one country, the
    store has a country after the startup hook, whether the hook seeded or
    not, and a seed request that follows is refused with 400 and changes
    nothing. *)
Theorem startup_then_seed_refused (settings : Settings)
    (init_db seed_database : Database → Database) (reply : PinataReply)
    (db : Database) :
  (∀ d, countries (seed_database d) ≠ []) →
  let started := (startup_event init_db seed_database db).1 in
  countries started ≠ []
  ∧ admin_request settings seed_database reply POST_seed
                  (Some (admin_api_key settings)) started
    = {| response := HTTPException HTTP_400_BAD_REQUEST
                       "Database already has data. Cannot seed.";
         store := started;
         calls := [] |}.
Proof.
  intros Hseed. cbv zeta.
  assert (Hc : countries (startup_event init_db seed_database db).1 ≠ []).
  { unfold startup_event.
    destruct (count (countries (init_db db)) =? 0) eqn:E; cbn [fst].
    - apply Hseed.
    - apply Z.eqb_neq in E. intros H. apply E. apply count_zero_nil. exact H. }
  split; [exact Hc|].
  rewrite admin_request_unfold, bool_decide_eq_true_2 by reflexivity.
  apply seed_demo_data_refuses. exact Hc.
Qed.

Lemma startup_then_seed_refused_witness :
  admin_request sample_settings sample_seed_database sample_reply POST_seed
    (Some "secret")
    (startup_event (λ d, d) sample_seed_database empty_database).1
  = {| response := HTTPException HTTP_400_BAD_REQUEST
                     "Database already has data. Cannot seed.";
       store := sample_db;
       calls := [] |}.
Proof.
  destruct (startup_then_seed_refused sample_settings (λ d, d)
              sample_seed_database sample_reply empty_database) as [_ H].
  - intros d. discriminate.
  - exact H.
Defined.
